(** * TopUpDeploymentsService

    A shallow embedding of
    [apps/api/src/deployment/services/top-up-deployments/top-up-deployments.service.ts]
    and the properties of its grant reconciliation pass.

    The file has two parts.  Part I holds the definitions: JavaScript
    numbers and [parseFloat], the data the service reads, a small monad
    of asynchronous computations with [Promise.all], [try]/[catch] and
    un-awaited promises, the service itself, and the semantics of the
    monad (an executable one under an environment of collaborators and
    scheduler, and the relation of all runs).  Part II holds the
    lemmas, and then the properties of the specification, [C1] to
    [C10]. *)

From Stdlib Require Import ZArith NArith String Ascii Bool Lia List.
From Stdlib Require Import Permutation.
From Stdlib Require Import Floats.SpecFloat.
From ExtLib Require Import Structures.Monad Structures.MonadExc.
Import ListNotations.
Import MonadNotation.

Open Scope string_scope.
Open Scope monad_scope.
Open Scope list_scope.

(* ================================================================== *)
(** * Part I: definitions *)
(* ================================================================== *)

(** ** JavaScript numbers

    A JavaScript [number] is an IEEE 754 binary64 value.  The Standard
    Library's [spec_float] is exactly that data ([S754_zero],
    [S754_infinity], [S754_nan], and [S754_finite s m e] for
    [(-1)^s * m * 2^e]), and [binary_round] / [SFdiv] round to nearest,
    ties to even, as ECMAScript does. *)

Definition number : Type := spec_float.

Definition prec : Z := 53.
Definition emax : Z := 1024.

Definition NaN : number := S754_nan.

(** The value of an integer literal of the source, such as [0] or
    [1000000]. *)
Definition integerLiteral (n : Z) : number :=
  binary_normalize prec emax n 0 false.

(** [x < 0] on numbers. *)
Definition isNegative (x : number) : bool :=
  SFltb x (S754_zero false).

Definition isNaN (x : number) : bool :=
  match x with
  | S754_nan => true
  | _ => false
  end.

(** ** [parseFloat]

    ECMAScript 19.2.4: trim leading white space, take the longest prefix
    that is a [StrDecimalLiteral], and return its numeric value, or
    [NaN] when there is no such prefix.  It never throws.

    A string is a sequence of code units; the model has the code units
    below 256, so the white space of the model is TAB, LF, VT, FF, CR,
    SP and NBSP. *)

Definition isWhiteSpace (c : ascii) : bool :=
  let n := nat_of_ascii c in
  ((9 <=? n) && (n <=? 13) || (n =? 32) || (n =? 160))%nat.

Fixpoint trimStart (s : string) : string :=
  match s with
  | String c s' => if isWhiteSpace c then trimStart s' else s
  | EmptyString => EmptyString
  end.

Definition digitValue (c : ascii) : option N :=
  let n := N_of_ascii c in
  if ((48 <=? n) && (n <=? 57))%N then Some (n - 48)%N else None.

(** The longest run of [DecimalDigits] at the head of [s], read on top
    of the digits [acc] already seen: the value, the number of digits
    consumed here, and the rest of the string. *)
Fixpoint decimalDigits (s : string) (acc : N) (count : nat)
  : N * nat * string :=
  match s with
  | String c s' =>
      match digitValue c with
      | Some d => decimalDigits s' (10 * acc + d)%N (S count)
      | None => (acc, count, s)
      end
  | EmptyString => (acc, count, s)
  end.

(** The mathematical value of a literal: [Infinity], or the decimal
    [m * 10^e]. *)
Inductive MV : Type :=
| MVInfinity
| MVDecimal (m : N) (e : Z).

(** [ExponentPart] is optional: an [e] or [E] that is not followed by a
    signed integer is not part of the longest prefix. *)
Definition exponentPart (s : string) : Z :=
  match s with
  | String c s' =>
      if (Ascii.eqb c "e" || Ascii.eqb c "E")%char then
        let '(neg, s'') :=
          match s' with
          | String "+"%char r => (false, r)
          | String "-"%char r => (true, r)
          | _ => (false, s')
          end in
        let '(v, n, _) := decimalDigits s'' 0%N 0%nat in
        if (n =? 0)%nat then 0%Z
        else if neg then (- Z.of_N v)%Z else Z.of_N v
      else 0%Z
  | EmptyString => 0%Z
  end.

(** [StrUnsignedDecimalLiteral]: [Infinity], [digits . digits? exp?],
    [. digits exp?] or [digits exp?]. *)
Definition strUnsignedDecimalLiteral (s : string) : option MV :=
  if prefix "Infinity" s then Some MVInfinity else
  let '(i, ni, r1) := decimalDigits s 0%N 0%nat in
  match r1 with
  | String "."%char r2 =>
      let '(f, nf, r3) := decimalDigits r2 i 0%nat in
      if ((ni =? 0) && (nf =? 0))%nat then None
      else Some (MVDecimal f (exponentPart r3 - Z.of_nat nf))
  | _ =>
      if (ni =? 0)%nat then None else Some (MVDecimal i (exponentPart r1))
  end.

(** The number nearest to [(-1)^neg * m * 10^e]. *)
Definition roundMV (neg : bool) (m : N) (e : Z) : number :=
  match m with
  | N0 => S754_zero neg
  | Npos p =>
      if (0 <=? e)%Z then
        binary_round prec emax neg (p * Z.to_pos (10 ^ e))%positive 0
      else
        SFdiv prec emax (S754_finite neg p 0)
              (S754_finite false (Z.to_pos (10 ^ (- e))) 0)
  end.

Definition numericValue (neg : bool) (s : string) : number :=
  match strUnsignedDecimalLiteral s with
  | None => NaN
  | Some MVInfinity => S754_infinity neg
  | Some (MVDecimal m e) => roundMV neg m e
  end.

Definition parseFloat (s : string) : number :=
  match trimStart s with
  | String "+"%char r => numericValue false r
  | String "-"%char r => numericValue true r
  | t => numericValue false t
  end.

(** The value of a decimal literal of the source text, such as
    [123.45], written as its digits and its decimal exponent
    ([12345] and [-2]). *)
Definition decimalLiteral (m : N) (e : Z) : number := roundMV false m e.

(** The code units a [StrDecimalLiteral] can start with: a digit, a
    sign, the dot, or the [I] of [Infinity]. *)
Definition startsLiteral (c : ascii) : bool :=
  match digitValue c with
  | Some _ => true
  | None =>
      (Ascii.eqb c "+" || Ascii.eqb c "-" || Ascii.eqb c "."
       || Ascii.eqb c "I")%char
  end.

(** How a string starts, read off its code units: [startsNumber] after
    the sign, [isNumericStart] on the whole string.  A number starts
    with a digit, with a dot that a digit follows, or with the word
    [Infinity]. *)
Definition isDigit (c : ascii) : bool :=
  match digitValue c with
  | Some _ => true
  | None => false
  end.

Definition startsNumber (s : string) : bool :=
  prefix "Infinity" s ||
  match s with
  | String c rest =>
      isDigit c ||
      (Ascii.eqb c "." &&
       match rest with
       | String c' _ => isDigit c'
       | EmptyString => false
       end)
  | EmptyString => false
  end.

(** The string without its leading white space and its sign, if it has
    one. *)
Definition unsignedPart (s : string) : string :=
  match trimStart s with
  | String c r =>
      if (Ascii.eqb c "+" || Ascii.eqb c "-")%char then r else String c r
  | EmptyString => EmptyString
  end.

Definition isNumericStart (s : string) : bool :=
  startsNumber (unsignedPart s).

(** ** The data the service reads *)

(** A thrown value.  The collaborators throw [Error] objects; the
    handler reads [error.stack]. *)
Record Error : Type := { message : string; stack : string }.

(** How an awaited call settles. *)
Inductive Outcome (X : Type) : Type :=
| Ok (x : X)
| Err (e : Error).
Arguments Ok {X} x.
Arguments Err {X} e.

Definition isOk {X : Type} (o : Outcome X) : bool :=
  match o with
  | Ok _ => true
  | Err _ => false
  end.

(** [{ denom, amount }], the amount being a decimal string. *)
Module Coin.
Record t : Type := { denom : string; amount : string }.
End Coin.

Module Authorization.
Record t : Type := { spend_limit : Coin.t }.
End Authorization.

Module DeploymentAllowance.
Record t : Type :=
  { granter : string; grantee : string; authorization : Authorization.t }.
End DeploymentAllowance.

Module Allowance.
Record t : Type := { spend_limit : list Coin.t }.
End Allowance.

Module FeeAllowance.
Record t : Type := { allowance : Allowance.t }.
End FeeAllowance.

Module Balances.
Record t : Type :=
  { denom : string;
    feesLimit : number;
    deploymentLimit : number;
    balance : number;
    isManaged : bool }.
End Balances.

Inductive OwnerType : Type := CUSTODIAL | MANAGED.

Definition OwnerType_eqb (a b : OwnerType) : bool :=
  match a, b with
  | CUSTODIAL, CUSTODIAL | MANAGED, MANAGED => true
  | _, _ => false
  end.

(** Modelled from the spec: the type [DrainingDeploymentOutput] is
    declared by the lease repository, outside the service's file;
    section 3 of the specification keeps the identity and the owner of
    a draining deployment. *)
Record DrainingDeploymentOutput : Type :=
  { dseq : string; owner : string }.

(** The three injected wallet services, by the name of their field. *)
Inductive MasterWalletService : Type :=
| managedMasterWalletService
| uaktMasterWalletService
| usdtMasterWalletService.

Inductive Side : Type := granterSide | granteeSide.

(** The first argument of [paginateDeploymentGrants]. *)
Module PaginationOptions.
Record t : Type := { side : Side; address : string; limit : nat }.
End PaginationOptions.

(** The records handed to the logger, one constructor per [event].  The
    constant [warning: "Not implemented yet"] of the stubs is left
    out. *)
Inductive LogRecord : Type :=
| BALANCES_COLLECTED (granter grantee : string) (balances : Balances.t)
| RETRIEVING_DRAINING_DEPLOYMENTS (owner : string)
| CALCULATING_TOP_UP_AMOUNT (deployment : DrainingDeploymentOutput)
| VALIDATING_TOP_UP_AMOUNT (amount : number) (balances : Balances.t)
| TOPPING_UP_CUSTODIAL_DEPLOYMENT
| TOPPING_UP_MANAGED_DEPLOYMENT
| TOP_UP_FAILED (error : string) (sentryEventId : string).

(** What [SentryEventService.toEvent] builds; opaque to the service. *)
Definition SentryEvent : Type := string.

(** ** Calls to the collaborators

    [Request R] is a call whose answer has type [R].  The collaborators
    are injected into the service and live in other modules: what they
    answer is left to the environment.  The HTTP services and the
    wallets may fail, so they answer with an [Outcome]; the logger and
    the error sink are taken not to throw (the specification's
    FailureReporter records an error without raising it).
    [Interleaving n] asks the scheduler in which order [n] promises
    awaited together take their turns. *)
Inductive Request : Type -> Type :=
| GetFirstAddress (wallet : MasterWalletService) : Request (Outcome string)
| FetchDeploymentGrantsPage (options : PaginationOptions.t) (page : nat)
  : Request (Outcome unit)
| GetFeeAllowanceForGranterAndGrantee (granter grantee : string)
  : Request (Outcome FeeAllowance.t)
| GetBalance (address denom : string) : Request (Outcome Coin.t)
| ToEvent (error : Error) : Request SentryEvent
| CaptureEvent (event : SentryEvent) : Request string
| LoggerDebug (record : LogRecord) : Request unit
| LoggerError (record : LogRecord) : Request unit
| Interleaving (n : nat) : Request (list nat).

(** ** Asynchronous computations

    The body of an [async] function as a tree: it resolves, rejects,
    calls a collaborator and goes on with the answer, or creates a
    promise that nobody awaits ([Spawn]) and goes on. *)
Inductive Async (A : Type) : Type :=
| Resolve (a : A)
| Reject (e : Error)
| Call {R : Type} (c : Request R) (k : R -> Async A)
| Spawn (t : Async unit) (k : Async A).
Arguments Resolve {A} a.
Arguments Reject {A} e.
Arguments Call {A R} c k.
Arguments Spawn {A} t k.

(** [await m] followed by [f]. *)
Fixpoint andThen {A B : Type} (m : Async A) (f : A -> Async B) : Async B :=
  match m with
  | Resolve a => f a
  | Reject e => Reject e
  | Call c k => Call c (fun r => andThen (k r) f)
  | Spawn t k => Spawn t (andThen k f)
  end.

(** [try { await m } catch (e) { h e }].  A promise that [m] left
    un-awaited is outside the [try]. *)
Fixpoint tryCatch {A : Type} (m : Async A) (h : Error -> Async A) : Async A :=
  match m with
  | Resolve a => Resolve a
  | Reject e => h e
  | Call c k => Call c (fun r => tryCatch (k r) h)
  | Spawn t k => Spawn t (tryCatch k h)
  end.

#[global] Instance Monad_Async : Monad Async :=
  {| ret := @Resolve; bind := @andThen |}.

#[global] Instance MonadExc_Async : MonadExc Error Async :=
  {| raise := @Reject; catch := @tryCatch |}.

(** Awaiting a call that may fail: a failure is thrown. *)
Definition await {X : Type} (c : Request (Outcome X)) : Async X :=
  Call c (fun r => match r with
                   | Ok x => ret x
                   | Err e => raise e
                   end).

(** A call that does not fail. *)
Definition perform {R : Type} (c : Request R) : Async R := Call c ret.

(** Promises created and not awaited, in the order of their creation. *)
Definition unawaited (ps : list (Async unit)) : Async unit :=
  fold_right Spawn (ret tt) ps.

(** *** [Promise.all]

    The promises take turns in the order the scheduler gives: a turn of
    promise [i] performs its next call.  When the scheduler's list is
    used up the promises that are left run one after the other.  Every
    order in which JavaScript can resume the promises is the order of
    some list (JavaScript runs a promise up to its next [await], so it
    has no more orders than these).
    [Promise.all] rejects with the first rejection in time, kept in
    [rej]; the model delivers it when every promise has settled (the
    other promises are not cancelled, and nothing in the service runs
    between the rejection and their end). *)

Fixpoint update {X : Type} (i : nat) (x : X) (l : list X) : list X :=
  match l, i with
  | [], _ => []
  | _ :: l', O => x :: l'
  | y :: l', S i' => y :: update i' x l'
  end.

Definition noteRejection {B : Type} (rej : option Error) (t : Async B)
  : option Error :=
  match rej, t with
  | None, Reject e => Some e
  | _, _ => rej
  end.

Definition firstRejected {B : Type} (ts : list (Async B)) : option Error :=
  fold_left noteRejection ts None.

Definition settle {B : Type} (t : Async B) : Async (Outcome B) :=
  catch (v <- t ;; ret (Ok v)) (fun e => ret (Err e)).

Fixpoint settleAll {B : Type} (ts : list (Async B)) (rej : option Error)
  : Async (list B) :=
  match ts with
  | [] =>
      match rej with
      | Some e => raise e
      | None => ret []
      end
  | t :: ts' =>
      o <- settle t ;;
      match o with
      | Ok v => vs <- settleAll ts' rej ;; ret (v :: vs)
      | Err e => settleAll ts' (Some (match rej with
                                      | Some e0 => e0
                                      | None => e
                                      end))
      end
  end.

Fixpoint allSteps {B : Type} (sched : list nat) (ts : list (Async B))
  (rej : option Error) : Async (list B) :=
  match sched with
  | [] => settleAll ts rej
  | i :: sched' =>
      match nth_error ts i with
      | Some (Call c k) =>
          Call c (fun r =>
            allSteps sched' (update i (k r) ts) (noteRejection rej (k r)))
      | Some (Spawn t k) =>
          Spawn t (allSteps sched' (update i k ts) (noteRejection rej k))
      | _ => allSteps sched' ts rej
      end
  end.

Definition Promise_all {B : Type} (ts : list (Async B)) : Async (list B) :=
  sched <- perform (Interleaving (List.length ts)) ;;
  allSteps sched ts (firstRejected ts).

(** ** The service *)

Section TopUpDeploymentsService.

(** The grant registry behind [allowanceHttpService]: the pages it
    holds for a filter, in registry order. *)
Variable registry :
  PaginationOptions.t -> list (list DeploymentAllowance.t).

Definition CONCURRENCY : nat := 10.

Definition UNLIMITED_FEES_MANAGED_BALANCE : number :=
  integerLiteral 1000000.

(** [sides[i]]; the array has two elements and [i] is 0 or 1. *)
Definition at_ (sides : list string) (i : nat) : string :=
  nth i sides "".

Fixpoint paginatePages (options : PaginationOptions.t) (page : nat)
  (pages : list (list DeploymentAllowance.t))
  (cb : list DeploymentAllowance.t -> Async unit) : Async unit :=
  match pages with
  | [] => ret tt
  | grants :: rest =>
      await (FetchDeploymentGrantsPage options page) ;;
      cb grants ;;
      paginatePages options (S page) rest cb
  end.

(** Modelled from the spec: [AllowanceHttpService] belongs to the
    http-sdk package.  Section 4.1: the callback is called once per
    page, in registry order, each call awaited before the next page
    is fetched, until the registry is exhausted; a page that cannot
    be fetched fails the pagination. *)
Definition paginateDeploymentGrants (options : PaginationOptions.t)
  (cb : list DeploymentAllowance.t -> Async unit) : Async unit :=
  paginatePages options 0 (registry options) cb.

Definition retrieveFeesLimit (granter grantee denom : string)
  : Async number :=
  feesAllowance <-
    await (GetFeeAllowanceForGranterAndGrantee granter grantee) ;;
  let feesSpendLimit :=
    find (fun limit => String.eqb (Coin.denom limit) denom)
         (Allowance.spend_limit (FeeAllowance.allowance feesAllowance)) in
  ret (match feesSpendLimit with
       | Some limit => parseFloat (Coin.amount limit)
       | None => integerLiteral 0
       end).

Definition collectWalletBalances (ownerType : OwnerType)
  (grant : DeploymentAllowance.t) : Async Balances.t :=
  let spend_limit :=
    Authorization.spend_limit (DeploymentAllowance.authorization grant) in
  let denom := Coin.denom spend_limit in
  let deploymentLimit := parseFloat (Coin.amount spend_limit) in
  let sides :=
    [DeploymentAllowance.granter grant; DeploymentAllowance.grantee grant] in
  let isManaged := OwnerType_eqb ownerType MANAGED in
  let sides := if isManaged then rev sides else sides in
  feesLimit <-
    (if isManaged then ret UNLIMITED_FEES_MANAGED_BALANCE
     else retrieveFeesLimit (at_ sides 0) (at_ sides 1) denom) ;;
  coin <- await (GetBalance (at_ sides 0) denom) ;;
  let balance := parseFloat (Coin.amount coin) in
  ret {| Balances.denom := denom;
         Balances.feesLimit := feesLimit;
         Balances.deploymentLimit := deploymentLimit;
         Balances.balance := balance;
         Balances.isManaged := isManaged |}.

Definition retrieveDrainingDeployments (owner : string)
  : Async (list DrainingDeploymentOutput) :=
  perform (LoggerDebug (RETRIEVING_DRAINING_DEPLOYMENTS owner)) ;;
  ret [].

Definition calculateTopUpAmount (deployment : DrainingDeploymentOutput)
  : Async number :=
  perform (LoggerDebug (CALCULATING_TOP_UP_AMOUNT deployment)) ;;
  ret (integerLiteral 0).

Definition validateTopUpAmount (amount : number) (balances : Balances.t)
  : Async unit :=
  perform (LoggerDebug (VALIDATING_TOP_UP_AMOUNT amount balances)).

Definition topUpCustodialDeployment : Async unit :=
  perform (LoggerDebug TOPPING_UP_CUSTODIAL_DEPLOYMENT).

Definition topUpManagedDeployment : Async unit :=
  perform (LoggerDebug TOPPING_UP_MANAGED_DEPLOYMENT).

(** The callbacks of [drainingDeployments.map] are [async] and their
    promises are dropped: they are created, never awaited. *)
Definition topUpForGrant (ownerType : OwnerType)
  (grant : DeploymentAllowance.t) : Async unit :=
  let owner :=
    if OwnerType_eqb ownerType CUSTODIAL
    then DeploymentAllowance.granter grant
    else DeploymentAllowance.grantee grant in
  balances <- collectWalletBalances ownerType grant ;;
  perform (LoggerDebug
    (BALANCES_COLLECTED owner (DeploymentAllowance.grantee grant)
                        balances)) ;;
  drainingDeployments <- retrieveDrainingDeployments owner ;;
  unawaited
    (map (fun deployment =>
            topUpAmount <- calculateTopUpAmount deployment ;;
            validateTopUpAmount topUpAmount balances)
         drainingDeployments).

Definition execWithErrorHandler (cb : unit -> Async unit) : Async unit :=
  catch (cb tt)
    (fun error =>
       event <- perform (ToEvent error) ;;
       sentryEventId <- perform (CaptureEvent event) ;;
       perform (LoggerError (TOP_UP_FAILED (stack error) sentryEventId))).

Definition wallets : list MasterWalletService :=
  [uaktMasterWalletService; usdtMasterWalletService].

Definition topUpAllCustodialDeployments : list (Async unit) :=
  map (fun wallet =>
         address <- await (GetFirstAddress wallet) ;;
         paginateDeploymentGrants
           {| PaginationOptions.side := granteeSide;
              PaginationOptions.address := address;
              PaginationOptions.limit := CONCURRENCY |}
           (fun grants =>
              Promise_all
                (map (fun grant =>
                        execWithErrorHandler
                          (fun _ => topUpForGrant CUSTODIAL grant))
                     grants) ;;
              ret tt))
      wallets.

Definition topUpDeployments : Async unit :=
  Promise_all topUpAllCustodialDeployments ;;
  address <- await (GetFirstAddress managedMasterWalletService) ;;
  paginateDeploymentGrants
    {| PaginationOptions.side := granterSide;
       PaginationOptions.address := address;
       PaginationOptions.limit := CONCURRENCY |}
    (fun grants =>
       Promise_all
         (map (fun grant =>
                 execWithErrorHandler
                   (fun _ => topUpForGrant MANAGED grant))
              grants) ;;
       ret tt).

End TopUpDeploymentsService.

(** ** Semantics *)

(** What can be observed of a run: each call with its answer, and each
    rejection of a promise nobody awaits. *)
Inductive Event : Type :=
| EvCall {R : Type} (c : Request R) (r : R)
| EvUnhandledRejection (e : Error).

Definition Trace : Type := list Event.

(** The collaborators and the scheduler: the answer to a call made when
    [now] events have happened.  No two calls of a run share their
    [now], so an environment can answer every call of a run as it
    likes ([Run_exec] below). *)
Definition Env : Type := forall R : Type, Request R -> nat -> R.

Definition unhandled {A : Type} (o : Outcome A) : Trace :=
  match o with
  | Ok _ => []
  | Err e => [EvUnhandledRejection e]
  end.

(** The run of [t] under [env].  An un-awaited promise takes its turns
    as soon as it is created; the service creates none. *)
Fixpoint exec {A : Type} (env : Env) (now : nat) (t : Async A)
  : Trace * Outcome A :=
  match t with
  | Resolve a => ([], Ok a)
  | Reject e => ([], Err e)
  | Call c k =>
      let r := env _ c now in
      let '(tr, o) := exec env (S now) (k r) in
      (EvCall c r :: tr, o)
  | Spawn t' k =>
      let '(tr1, o1) := exec env now t' in
      let bg := tr1 ++ unhandled o1 in
      let '(tr2, o2) := exec env (now + List.length bg) k in
      (bg ++ tr2, o2)
  end.

Definition trace {A : Type} (env : Env) (now : nat) (t : Async A) : Trace :=
  fst (exec env now t).

Definition outcome {A : Type} (env : Env) (now : nat) (t : Async A)
  : Outcome A :=
  snd (exec env now t).

(** All the runs of [t], whatever the collaborators answer. *)
Fixpoint Run {A : Type} (t : Async A) (tr : Trace) (o : Outcome A) : Prop :=
  match t with
  | Resolve a => tr = [] /\ o = Ok a
  | Reject e => tr = [] /\ o = Err e
  | Call c k => exists r tr', tr = EvCall c r :: tr' /\ Run (k r) tr' o
  | Spawn t' k =>
      exists tr1 o1 tr2,
        Run t' tr1 o1 /\ Run k tr2 o /\ tr = tr1 ++ unhandled o1 ++ tr2
  end.

(** The environment that answers as a trace did: the call made at
    [now] gets the answer of the event at [now].  [noAnswer] is used
    for a call the trace does not hold. *)
Definition noAnswer {R : Type} (c : Request R) : R :=
  match c in Request R return R with
  | GetFirstAddress _ => Err {| message := ""; stack := "" |}
  | FetchDeploymentGrantsPage _ _ => Err {| message := ""; stack := "" |}
  | GetFeeAllowanceForGranterAndGrantee _ _ =>
      Err {| message := ""; stack := "" |}
  | GetBalance _ _ => Err {| message := ""; stack := "" |}
  | ToEvent _ => ""
  | CaptureEvent _ => ""
  | LoggerDebug _ => tt
  | LoggerError _ => tt
  | Interleaving _ => []
  end.

Definition answerOf {R : Type} (c : Request R) (ev : Event) : option R :=
  match ev with
  | EvUnhandledRejection _ => None
  | EvCall c' r' =>
      match c in Request R, c' in Request R' return R' -> option R with
      | GetFirstAddress _, GetFirstAddress _ => Some
      | FetchDeploymentGrantsPage _ _, FetchDeploymentGrantsPage _ _ => Some
      | GetFeeAllowanceForGranterAndGrantee _ _,
        GetFeeAllowanceForGranterAndGrantee _ _ => Some
      | GetBalance _ _, GetBalance _ _ => Some
      | ToEvent _, ToEvent _ => Some
      | CaptureEvent _, CaptureEvent _ => Some
      | LoggerDebug _, LoggerDebug _ => Some
      | LoggerError _, LoggerError _ => Some
      | Interleaving _, Interleaving _ => Some
      | _, _ => fun _ => None
      end r'
  end.

Definition replay (tr : Trace) : Env :=
  fun R c now =>
    match nth_error tr now with
    | Some ev =>
        match answerOf c ev with
        | Some r => r
        | None => noAnswer c
        end
    | None => noAnswer c
    end.

(** [tr] is a shuffle of the lists [ls]: each list keeps its order. *)
Inductive Shuffle {X : Type} : list (list X) -> list X -> Prop :=
| ShuffleDone (ls : list (list X)) :
    Forall (fun l => l = []) ls -> Shuffle ls []
| ShuffleTake (l1 : list (list X)) (blk l : list X) (l2 : list (list X))
    (tr : list X) :
    Shuffle (l1 ++ l :: l2) tr ->
    Shuffle (l1 ++ (blk ++ l) :: l2) (blk ++ tr).

(** *** Measures of a trace *)

Definition weight (w : Event -> Z) (tr : Trace) : Z :=
  fold_right (fun ev acc => (w ev + acc)%Z) 0%Z tr.

Definition count (p : Event -> bool) (tr : Trace) : nat :=
  List.length (filter p tr).

Definition indicator (p : Event -> bool) (ev : Event) : Z :=
  if p ev then 1%Z else 0%Z.

Definition errorOf {X : Type} (o : Outcome X) : option Error :=
  match o with
  | Ok _ => None
  | Err e => Some e
  end.

(** The error of a call that failed. *)
Definition failureOf (ev : Event) : option Error :=
  match ev with
  | EvCall c r =>
      match c in Request R return R -> option Error with
      | GetFirstAddress _ => errorOf
      | FetchDeploymentGrantsPage _ _ => errorOf
      | GetFeeAllowanceForGranterAndGrantee _ _ => errorOf
      | GetBalance _ _ => errorOf
      | _ => fun _ => None
      end r
  | EvUnhandledRejection _ => None
  end.

(** The processing of a grant ends with one of two records: the last
    one of [topUpForGrant], or the one of the error handler. *)
Definition isCompletion (ev : Event) : bool :=
  match ev with
  | EvCall (LoggerDebug (RETRIEVING_DRAINING_DEPLOYMENTS _)) _ => true
  | EvCall (LoggerError (TOP_UP_FAILED _ _)) _ => true
  | _ => false
  end.

Definition isUnhandledRejection (ev : Event) : bool :=
  match ev with
  | EvUnhandledRejection _ => true
  | _ => false
  end.

(** [calculateTopUpAmount] and [validateTopUpAmount] log as soon as they
    are entered. *)
Definition isPolicyInvocation (ev : Event) : bool :=
  match ev with
  | EvCall (LoggerDebug (CALCULATING_TOP_UP_AMOUNT _)) _ => true
  | EvCall (LoggerDebug (VALIDATING_TOP_UP_AMOUNT _ _)) _ => true
  | _ => false
  end.

Definition isFeeAllowanceLookup (ev : Event) : bool :=
  match ev with
  | EvCall (GetFeeAllowanceForGranterAndGrantee _ _) _ => true
  | _ => false
  end.

(** Which pass an event belongs to, where the event tells: the wallet
    whose address is resolved, the side of the page filter, the flag of
    the collected balances; fee allowances are looked up for custodial
    owners only. *)
Definition isCustodialSide (ev : Event) : bool :=
  match ev with
  | EvCall (GetFirstAddress managedMasterWalletService) _ => false
  | EvCall (GetFirstAddress _) _ => true
  | EvCall (FetchDeploymentGrantsPage options _) _ =>
      match PaginationOptions.side options with
      | granteeSide => true
      | granterSide => false
      end
  | EvCall (GetFeeAllowanceForGranterAndGrantee _ _) _ => true
  | EvCall (LoggerDebug (BALANCES_COLLECTED _ _ balances)) _ =>
      negb (Balances.isManaged balances)
  | _ => false
  end.

Definition isManagedSide (ev : Event) : bool :=
  match ev with
  | EvCall (GetFirstAddress managedMasterWalletService) _ => true
  | EvCall (FetchDeploymentGrantsPage options _) _ =>
      match PaginationOptions.side options with
      | granteeSide => false
      | granterSide => true
      end
  | EvCall (LoggerDebug (BALANCES_COLLECTED _ _ balances)) _ =>
      Balances.isManaged balances
  | _ => false
  end.

(** The number of grants a page fetch hands to the callback: the size
    of the page when the fetch succeeds. *)
Definition fetched
  (registry : PaginationOptions.t -> list (list DeploymentAllowance.t))
  (ev : Event) : Z :=
  match ev with
  | EvCall c r =>
      match c in Request R return R -> Z with
      | FetchDeploymentGrantsPage options page =>
          fun r =>
            match r with
            | Ok _ => Z.of_nat (length (nth page (registry options) []))
            | Err _ => 0%Z
            end
      | _ => fun _ => 0%Z
      end r
  | EvUnhandledRejection _ => 0%Z
  end.

(** Grants fetched minus grants completed. *)
Definition pending
  (registry : PaginationOptions.t -> list (list DeploymentAllowance.t))
  (ev : Event) : Z :=
  (fetched registry ev - indicator isCompletion ev)%Z.

(** The calls of a trace, by collaborator. *)
Definition balanceFetches (tr : Trace) : list (string * string) :=
  flat_map (fun ev =>
              match ev with
              | EvCall (GetBalance address denom) _ => [(address, denom)]
              | _ => []
              end) tr.

Definition feeLookups (tr : Trace) : list (string * string) :=
  flat_map (fun ev =>
              match ev with
              | EvCall (GetFeeAllowanceForGranterAndGrantee granter grantee) _ =>
                  [(granter, grantee)]
              | _ => []
              end) tr.

(** The answers to the balance fetches of a trace. *)
Definition balanceAnswers (tr : Trace) : list (Outcome Coin.t) :=
  flat_map (fun ev =>
              match ev with
              | EvCall c r =>
                  match c in Request R return R -> list (Outcome Coin.t) with
                  | GetBalance _ _ => fun r => [r]
                  | _ => fun _ => []
                  end r
              | EvUnhandledRejection _ => []
              end) tr.

Definition pageFetches (tr : Trace) : list (string * nat) :=
  flat_map (fun ev =>
              match ev with
              | EvCall (FetchDeploymentGrantsPage options page) _ =>
                  [(PaginationOptions.address options, page)]
              | _ => []
              end) tr.

(** What the handler of [execWithErrorHandler] leaves in the trace. *)
Definition handlerTrace (e : Error) (event : SentryEvent) (id : string)
  : Trace :=
  [EvCall (ToEvent e) event;
   EvCall (CaptureEvent event) id;
   EvCall (LoggerError (TOP_UP_FAILED (stack e) id)) tt].

(** [e] was handed to the error sink and logged, and nothing came
    after. *)
Definition reported (e : Error) (tr : Trace) : Prop :=
  exists pre event id, tr = pre ++ handlerTrace e event id.

(** Runs of a list of promises, and the case where all resolved. *)
Definition RunsOf {B : Type} (ts : list (Async B))
  (rs : list (Trace * Outcome B)) : Prop :=
  Forall2 (fun t r => Run t (fst r) (snd r)) ts rs.

Definition AllOk {B : Type} (rs : list (Trace * Outcome B)) : Prop :=
  Forall (fun r => isOk (snd r) = true) rs.

(** ** Names for the anonymous functions of [topUpDeployments] *)

(** [grant => execWithErrorHandler(() => topUpForGrant(ownerType, grant))] *)
Definition processGrant (ownerType : OwnerType)
  (grant : DeploymentAllowance.t) : Async unit :=
  execWithErrorHandler (fun _ => topUpForGrant ownerType grant).

(** [grants => Promise.all(grants.map(...))], the page callback. *)
Definition processPage (ownerType : OwnerType)
  (grants : list DeploymentAllowance.t) : Async unit :=
  Promise_all (map (processGrant ownerType) grants) ;;
  ret tt.

(** The pass over the grants of one wallet. *)
Definition reconcileWallet
  (registry : PaginationOptions.t -> list (list DeploymentAllowance.t))
  (wallet : MasterWalletService) (side : Side) (ownerType : OwnerType)
  : Async unit :=
  address <- await (GetFirstAddress wallet) ;;
  paginateDeploymentGrants registry
    {| PaginationOptions.side := side;
       PaginationOptions.address := address;
       PaginationOptions.limit := CONCURRENCY |}
    (processPage ownerType).

(** ** Sample data *)

Definition mkGrant (granter grantee denom amount : string)
  : DeploymentAllowance.t :=
  {| DeploymentAllowance.granter := granter;
     DeploymentAllowance.grantee := grantee;
     DeploymentAllowance.authorization :=
       {| Authorization.spend_limit :=
            {| Coin.denom := denom; Coin.amount := amount |} |} |}.

Definition mkFeeAllowance (limits : list Coin.t) : FeeAllowance.t :=
  {| FeeAllowance.allowance := {| Allowance.spend_limit := limits |} |}.

Definition sampleError : Error :=
  {| message := "balance unavailable";
     stack := "Error: balance unavailable at getBalance" |}.

(** An environment: every wallet and page answers, the fee allowance
    between any two addresses is [fees], the balance of an address is
    [balanceOf], and the scheduler answers [sched]. *)
Definition sampleEnv (fees : list Coin.t)
  (balanceOf : string -> Outcome string) (sched : nat -> list nat) : Env :=
  fun R c now =>
    match c in Request R return R with
    | GetFirstAddress managedMasterWalletService => Ok "managed-wallet"
    | GetFirstAddress uaktMasterWalletService => Ok "uakt-wallet"
    | GetFirstAddress usdtMasterWalletService => Ok "usdc-wallet"
    | FetchDeploymentGrantsPage _ _ => Ok tt
    | GetFeeAllowanceForGranterAndGrantee _ _ => Ok (mkFeeAllowance fees)
    | GetBalance address denom =>
        match balanceOf address with
        | Ok amount => Ok {| Coin.denom := denom; Coin.amount := amount |}
        | Err e => Err e
        end
    | ToEvent e => message e
    | CaptureEvent _ => "event-1"
    | LoggerDebug _ => tt
    | LoggerError _ => tt
    | Interleaving _ => sched now
    end.

Definition uakt (amount : string) : Coin.t :=
  {| Coin.denom := "uakt"; Coin.amount := amount |}.

(** Two custodial wallets with two pages and one page, and one managed
    grant; the balance of ["wallet2"] cannot be read. *)
Definition sampleRegistry (options : PaginationOptions.t)
  : list (list DeploymentAllowance.t) :=
  match PaginationOptions.side options with
  | granteeSide =>
      if String.eqb (PaginationOptions.address options) "uakt-wallet" then
        [[mkGrant "wallet1" "uakt-wallet" "uakt" "500";
          mkGrant "wallet2" "uakt-wallet" "uakt" "250"];
         [mkGrant "wallet3" "uakt-wallet" "uakt" "7"]]
      else [[mkGrant "wallet4" "usdc-wallet" "uakt" "9"]]
  | granterSide => [[mkGrant "managed-wallet" "owner9" "uakt" "100"]]
  end.

Definition sampleBalances (address : string) : Outcome string :=
  if String.eqb address "wallet2" then Err sampleError else Ok "42".

(** The scheduler answers [sched] to the first [Promise.all] of the run
    and lets the promises of a page run one after the other. *)
Definition atStart (sched : list nat) (now : nat) : list nat :=
  if Nat.eqb now 0 then sched else [].

(** Both wallets resolve their address, then: the first wallet goes
    through its pages before the second one starts; the second wallet
    finishes before the first one fetches a page; they alternate. *)
Definition uaktFirst : nat -> list nat := atStart [0; 1].

Definition usdcFirst : nat -> list nat := atStart ([0; 1] ++ repeat 1 20).

Definition alternating : nat -> list nat :=
  atStart (concat (repeat [0; 1] 10)).

(** ** Further measures and data *)

(** A wallet that does not give its address, a page that cannot be
    fetched: nothing catches these. *)
Definition isFatalFailure (ev : Event) : bool :=
  match ev with
  | EvCall c r =>
      match c in Request R return R -> bool with
      | GetFirstAddress _ => fun r => negb (isOk r)
      | FetchDeploymentGrantsPage _ _ => fun r => negb (isOk r)
      | _ => fun _ => false
      end r
  | EvUnhandledRejection _ => false
  end.

Definition isCustodialFatalFailure (ev : Event) : bool :=
  isFatalFailure ev && isCustodialSide ev.

Definition isManagedAddress (ev : Event) : bool :=
  match ev with
  | EvCall (GetFirstAddress managedMasterWalletService) _ => true
  | _ => false
  end.

(** A fee allowance or a balance that cannot be read: the boundary of
    the grant catches these. *)
Definition isLookupFailure (ev : Event) : bool :=
  match ev with
  | EvCall c r =>
      match c in Request R return R -> bool with
      | GetFeeAllowanceForGranterAndGrantee _ _ => fun r => negb (isOk r)
      | GetBalance _ _ => fun r => negb (isOk r)
      | _ => fun _ => false
      end r
  | EvUnhandledRejection _ => false
  end.

Definition isFeeLookupFailure (ev : Event) : bool :=
  isFeeAllowanceLookup ev && isLookupFailure ev.

Definition isToEvent (ev : Event) : bool :=
  match ev with
  | EvCall (ToEvent _) _ => true
  | _ => false
  end.

Definition isCaptureEvent (ev : Event) : bool :=
  match ev with
  | EvCall (CaptureEvent _) _ => true
  | _ => false
  end.

Definition isTopUpFailedLog (ev : Event) : bool :=
  match ev with
  | EvCall (LoggerError (TOP_UP_FAILED _ _)) _ => true
  | _ => false
  end.

Definition isBalanceFetch (ev : Event) : bool :=
  match ev with
  | EvCall (GetBalance _ _) _ => true
  | _ => false
  end.

(** The grants of a page fetched for a custodial wallet. *)
Definition fetchedCustodial
  (registry : PaginationOptions.t -> list (list DeploymentAllowance.t))
  (ev : Event) : Z :=
  match ev with
  | EvCall (FetchDeploymentGrantsPage options _) _ =>
      match PaginationOptions.side options with
      | granteeSide => fetched registry ev
      | granterSide => 0%Z
      end
  | _ => 0%Z
  end.

(** The run holds a failed address or page whose error is [e]. *)
Definition Aborted (tr : Trace) (e : Error) : Prop :=
  exists ev, In ev tr /\ isFatalFailure ev = true /\ failureOf ev = Some e.

(** How a pass ends: resolved, no address and no page failed;
    rejected, one did, and the pass rejects with its error. *)
Definition PassEnds (tr : Trace) (o : Outcome unit) : Prop :=
  match o with
  | Ok _ => count isFatalFailure tr = 0
  | Err e => count isFatalFailure tr = 1 /\ Aborted tr e
  end.

(** How [Promise.all] settles, from the runs of its promises and the
    rejection noted so far. *)
Definition Joined {B : Type} (rej : option Error)
  (rs : list (Trace * Outcome B)) (o : Outcome (list B)) : Prop :=
  match o with
  | Ok vs => rej = None /\ map snd rs = map Ok vs
  | Err e => rej = Some e \/ exists r, In r rs /\ snd r = Err e
  end.

(** The string of the decimal digits [ds], and the integer it
    writes. *)
Definition digitChar (d : N) : ascii := ascii_of_N (48 + d).

Fixpoint digitString (ds : list N) : string :=
  match ds with
  | [] => EmptyString
  | d :: ds' => String (digitChar d) (digitString ds')
  end.

Definition digitsValue (ds : list N) : N :=
  fold_left (fun acc d => (10 * acc + d)%N) ds 0%N.

(** What can follow the digits of an integer: nothing, or a code unit
    that is not a digit, a dot or an exponent mark. *)
Definition endsNumber (rest : string) : bool :=
  match rest with
  | EmptyString => true
  | String c _ =>
      match digitValue c with
      | Some _ => false
      | None =>
          negb (Ascii.eqb c "." || Ascii.eqb c "e" || Ascii.eqb c "E")%char
      end
  end.

(** [{ ...grant, granter }] *)
Definition withGranter (granter : string) (grant : DeploymentAllowance.t)
  : DeploymentAllowance.t :=
  {| DeploymentAllowance.granter := granter;
     DeploymentAllowance.grantee := DeploymentAllowance.grantee grant;
     DeploymentAllowance.authorization :=
       DeploymentAllowance.authorization grant |}.

Definition MasterWalletService_eqb (a b : MasterWalletService) : bool :=
  match a, b with
  | managedMasterWalletService, managedMasterWalletService
  | uaktMasterWalletService, uaktMasterWalletService
  | usdtMasterWalletService, usdtMasterWalletService => true
  | _, _ => false
  end.

(** [wallet.getFirstAddress()] for the wallet [wallet]. *)
Definition isAddressOf (wallet : MasterWalletService) (ev : Event) : bool :=
  match ev with
  | EvCall (GetFirstAddress wallet') _ =>
      MasterWalletService_eqb wallet wallet'
  | _ => false
  end.

(** ** The methods behind [topUpForGrant]

    [topUpForGrant] reaches the lookup of draining deployments and the
    two steps of the top-up policy through [this].  The source has a
    stub for each of the three; section 4.5 of the specification takes
    them as collaborators and gives their contract only.
    [topUpForGrantWith] is the body of [topUpForGrant] over the three
    methods, and [topUpForGrant] is its instance at the stubs
    ([topUpForGrant_stubs]). *)
Definition topUpForGrantWith
  (retrieve : string -> Async (list DrainingDeploymentOutput))
  (calculate : DrainingDeploymentOutput -> Async number)
  (validate : number -> Balances.t -> Async unit)
  (ownerType : OwnerType) (grant : DeploymentAllowance.t) : Async unit :=
  let owner :=
    if OwnerType_eqb ownerType CUSTODIAL
    then DeploymentAllowance.granter grant
    else DeploymentAllowance.grantee grant in
  balances <- collectWalletBalances ownerType grant ;;
  perform (LoggerDebug
    (BALANCES_COLLECTED owner (DeploymentAllowance.grantee grant)
                        balances)) ;;
  drainingDeployments <- retrieve owner ;;
  unawaited
    (map (fun deployment =>
            topUpAmount <- calculate deployment ;;
            validate topUpAmount balances)
         drainingDeployments).






(* ================================================================== *)
(** * Part II: lemmas and theorems *)
(* ================================================================== *)

(** The proofs go pass by pass: the named passes are not unfolded by
    simplification. *)
Arguments Promise_all : simpl never.
Arguments processGrant : simpl never.
Arguments processPage : simpl never.
Arguments reconcileWallet : simpl never.

(** ** [parseFloat] *)

Lemma binary_round_aux_not_negative mx ex lx :
  isNegative (binary_round_aux prec emax false mx ex lx) = false.
Proof.
  unfold binary_round_aux.
  destruct (shr_fexp prec emax mx ex lx) as [mrs' e'].
  destruct (shr_fexp prec emax _ e' loc_Exact) as [mrs'' e''].
  destruct (shr_m mrs''); try reflexivity.
  destruct (Z.leb e'' (Z.sub emax prec)); reflexivity.
Qed.

Lemma roundMV_not_negative m e : isNegative (roundMV false m e) = false.
Proof.
  unfold roundMV. destruct m as [|p]; [reflexivity |].
  destruct (0 <=? e)%Z.
  - unfold binary_round. destruct (shl_align _ _ _) as [mz ez].
    apply binary_round_aux_not_negative.
  - unfold SFdiv. destruct (SFdiv_core_binary _ _ _ _ _ _) as [[mz ez] lz].
    apply binary_round_aux_not_negative.
Qed.

Lemma numericValue_not_negative s :
  isNegative (numericValue false s) = false.
Proof.
  unfold numericValue.
  destruct (strUnsignedDecimalLiteral s) as [[|m e]|]; try reflexivity.
  apply roundMV_not_negative.
Qed.

(** Only a string written with a minus sign parses to a negative
    number. *)
Lemma parseFloat_negative s :
  isNegative (parseFloat s) = true -> exists r, trimStart s = String "-" r.
Proof.
  unfold parseFloat. destruct (trimStart s) as [|c r].
  - rewrite numericValue_not_negative. discriminate.
  - destruct c as [[] [] [] [] [] [] [] []];
      try (rewrite numericValue_not_negative; discriminate).
    intros _. exists r. reflexivity.
Qed.

(** A string that does not start as a literal parses to [NaN]. *)
Lemma parseFloat_NaN s :
  match trimStart s with
  | EmptyString => True
  | String c _ => startsLiteral c = false
  end ->
  parseFloat s = NaN.
Proof.
  unfold parseFloat. destruct (trimStart s) as [|c r]; [reflexivity |].
  destruct c as [[] [] [] [] [] [] [] []]; intros H;
    try discriminate H; reflexivity.
Qed.

(** Rounding a decimal gives a number: zero, finite or infinite. *)
Lemma shr_1_nonneg mrs : (0 <= shr_m mrs)%Z -> (0 <= shr_m (shr_1 mrs))%Z.
Proof.
  destruct mrs as [m r s]. destruct m as [|[p|p|]|[p|p|]]; simpl; lia.
Qed.

Lemma iter_shr_1_nonneg (p : positive) :
  forall mrs, (0 <= shr_m mrs)%Z -> (0 <= shr_m (iter_pos shr_1 p mrs))%Z.
Proof.
  induction p as [p IH | p IH |]; intros mrs H; simpl.
  - apply IH, IH, shr_1_nonneg, H.
  - apply IH, IH, H.
  - apply shr_1_nonneg, H.
Qed.

Lemma shr_fexp_nonneg m e l :
  (0 <= m)%Z -> (0 <= shr_m (fst (shr_fexp prec emax m e l)))%Z.
Proof.
  intros H. unfold shr_fexp, shr.
  assert (H0 : (0 <= shr_m (shr_record_of_loc m l))%Z).
  { destruct l as [|[]]; exact H. }
  destruct (fexp prec emax (Zdigits2 m + e) - e)%Z; simpl; auto.
  now apply iter_shr_1_nonneg.
Qed.

Lemma round_nearest_even_nonneg mx lx :
  (0 <= mx)%Z -> (0 <= round_nearest_even mx lx)%Z.
Proof.
  intros H. destruct lx as [|[]]; simpl; try destruct (Z.even mx); lia.
Qed.

Lemma binary_round_aux_not_NaN sx mx ex lx :
  (0 <= mx)%Z -> isNaN (binary_round_aux prec emax sx mx ex lx) = false.
Proof.
  intros H. unfold binary_round_aux.
  pose proof (shr_fexp_nonneg mx ex lx H) as H1.
  destruct (shr_fexp prec emax mx ex lx) as [mrs' e']. simpl in H1.
  pose proof (shr_fexp_nonneg _ e' loc_Exact
                (round_nearest_even_nonneg _ (loc_of_shr_record mrs') H1))
    as H2.
  destruct (shr_fexp prec emax _ e' loc_Exact) as [mrs'' e'']. simpl in H2.
  destruct (shr_m mrs'') as [|p|p]; [reflexivity | | lia].
  destruct (Z.leb e'' (Z.sub emax prec)); reflexivity.
Qed.

Lemma roundMV_not_NaN neg m e : isNaN (roundMV neg m e) = false.
Proof.
  unfold roundMV. destruct m as [|p]; [reflexivity |].
  destruct (0 <=? e)%Z.
  - unfold binary_round. destruct (shl_align _ _ _) as [mz ez].
    apply binary_round_aux_not_NaN. lia.
  - unfold SFdiv, SFdiv_core_binary.
    set (d := Z.to_pos (10 ^ (- e))).
    set (e' := Z.min _ _). set (s := (0 - 0 - e')%Z).
    set (m' := match s with Z0 => Z.pos p | Z.pos _ => Z.shiftl (Z.pos p) s | Z.neg _ => 0%Z end).
    assert (Hm : (0 <= m')%Z).
    { subst m'. destruct s; try lia. apply Z.shiftl_nonneg. lia. }
    pose proof (Z.div_pos m' (Z.pos d) Hm ltac:(lia)) as Hq.
    unfold Z.div in Hq.
    destruct (Z.div_eucl m' (Z.pos d)) as [q r]. simpl in Hq.
    now apply binary_round_aux_not_NaN.
Qed.

(** The two parsers, with their tests on the first code unit written
    out. *)
Lemma strUnsignedDecimalLiteral_cases (s : string) :
  strUnsignedDecimalLiteral s =
  if prefix "Infinity" s then Some MVInfinity else
  let '(i, ni, r1) := decimalDigits s 0%N 0%nat in
  match r1 with
  | String c r2 =>
      if Ascii.eqb c "." then
        let '(f, nf, r3) := decimalDigits r2 i 0%nat in
        if ((ni =? 0) && (nf =? 0))%nat then None
        else Some (MVDecimal f (exponentPart r3 - Z.of_nat nf))
      else
        if (ni =? 0)%nat then None else Some (MVDecimal i (exponentPart r1))
  | EmptyString =>
      if (ni =? 0)%nat then None else Some (MVDecimal i (exponentPart r1))
  end.
Proof.
  unfold strUnsignedDecimalLiteral.
  destruct (prefix "Infinity" s); [reflexivity |].
  destruct (decimalDigits s 0%N 0%nat) as [[i ni] r1].
  destruct r1 as [| c r2]; [reflexivity |].
  destruct c as [[] [] [] [] [] [] [] []]; reflexivity.
Qed.

Lemma parseFloat_cases (s : string) :
  parseFloat s =
  match trimStart s with
  | String c r =>
      if Ascii.eqb c "+" then numericValue false r
      else if Ascii.eqb c "-" then numericValue true r
      else numericValue false (String c r)
  | EmptyString => numericValue false EmptyString
  end.
Proof.
  unfold parseFloat. destruct (trimStart s) as [| c r]; [reflexivity |].
  destruct c as [[] [] [] [] [] [] [] []]; reflexivity.
Qed.

(** [decimalDigits] consumes a digit when there is one. *)
Lemma decimalDigits_count (s : string) :
  forall acc n, (n <= snd (fst (decimalDigits s acc n)))%nat.
Proof.
  induction s as [| c s IH]; intros acc n; cbn [decimalDigits].
  - apply Nat.le_refl.
  - destruct (digitValue c) as [d |]; [| apply Nat.le_refl].
    apply Nat.le_trans with (S n); [lia | apply IH].
Qed.

Lemma decimalDigits_none (s : string) (acc : N) :
  (snd (fst (decimalDigits s acc 0)) =? 0)%nat =
  negb match s with
       | String c _ => isDigit c
       | EmptyString => false
       end.
Proof.
  destruct s as [| c s]; [reflexivity |]. unfold isDigit.
  cbn [decimalDigits].
  destruct (digitValue c) as [d |]; [| reflexivity].
  generalize (decimalDigits_count s (10 * acc + d)%N 1).
  destruct (decimalDigits s (10 * acc + d) 1) as [[v n] r]. simpl.
  destruct n; [lia | reflexivity].
Qed.

Lemma decimalDigits_rest (c : ascii) (s : string) (acc : N) (n : nat) :
  isDigit c = false ->
  decimalDigits (String c s) acc n = (acc, n, String c s).
Proof.
  unfold isDigit. simpl. destruct (digitValue c); [discriminate | reflexivity].
Qed.

(** A literal is read exactly from a string that starts as a number. *)
Lemma strUnsignedDecimalLiteral_defined (s : string) :
  match strUnsignedDecimalLiteral s with
  | Some _ => true
  | None => false
  end = startsNumber s.
Proof.
  rewrite strUnsignedDecimalLiteral_cases. unfold startsNumber.
  destruct (prefix "Infinity" s); [reflexivity |]. simpl.
  destruct s as [| c s]; [reflexivity |].
  destruct (isDigit c) eqn:Hc.
  - pose proof (decimalDigits_none (String c s) 0) as H.
    cbv beta iota in H. rewrite Hc in H.
    destruct (decimalDigits (String c s) 0 0) as [[i ni] r1].
    simpl in H. rewrite H. simpl.
    destruct r1 as [| c1 r2]; [reflexivity |].
    destruct (Ascii.eqb c1 "."); [| reflexivity].
    destruct (decimalDigits r2 i 0) as [[f nf] r3]. reflexivity.
  - rewrite (decimalDigits_rest c s 0 0 Hc). simpl.
    destruct (Ascii.eqb c "."); [| reflexivity].
    pose proof (decimalDigits_none s 0) as H.
    destruct (decimalDigits s 0 0) as [[f nf] r3]. simpl in H.
    simpl. rewrite H.
    destruct s as [| c' s']; [reflexivity |].
    destruct (isDigit c'); reflexivity.
Qed.

Lemma numericValue_NaN (neg : bool) (s : string) :
  isNaN (numericValue neg s) = negb (startsNumber s).
Proof.
  rewrite <- strUnsignedDecimalLiteral_defined. unfold numericValue.
  destruct (strUnsignedDecimalLiteral s) as [[| m e] |]; try reflexivity.
  apply roundMV_not_NaN.
Qed.

Lemma parseFloat_unsignedPart (s : string) :
  exists neg, parseFloat s = numericValue neg (unsignedPart s).
Proof.
  rewrite parseFloat_cases. unfold unsignedPart.
  destruct (trimStart s) as [| c r]; [now exists false |].
  destruct (Ascii.eqb c "+"); [now exists false |].
  destruct (Ascii.eqb c "-"); [now exists true | now exists false].
Qed.

(** [parseFloat] gives [NaN] for the strings that do not start as a
    number, and for no other. *)
Lemma parseFloat_isNaN (s : string) :
  isNaN (parseFloat s) = negb (isNumericStart s).
Proof.
  destruct (parseFloat_unsignedPart s) as [neg ->].
  apply numericValue_NaN.
Qed.

(** ** Lists *)

Lemma update_app {X : Type} (l1 l2 : list X) (x y : X) :
  update (List.length l1) x (l1 ++ y :: l2) = l1 ++ x :: l2.
Proof.
  induction l1 as [|z l1 IH]; simpl; [reflexivity | now rewrite IH].
Qed.

Lemma nth_error_cut {X : Type} (l : list X) (i : nat) (x : X) :
  nth_error l i = Some x ->
  exists l1 l2, l = l1 ++ x :: l2 /\ List.length l1 = i.
Proof. apply nth_error_split. Qed.

(** ** Measures *)

Lemma weight_cons (w : Event -> Z) (ev : Event) (tr : Trace) :
  weight w (ev :: tr) = (w ev + weight w tr)%Z.
Proof. reflexivity. Qed.

Lemma weight_app (w : Event -> Z) (a b : Trace) :
  weight w (a ++ b) = (weight w a + weight w b)%Z.
Proof.
  induction a as [|ev a IH]; simpl; [reflexivity | rewrite IH; lia].
Qed.

Lemma weight_Permutation (w : Event -> Z) (a b : Trace) :
  Permutation a b -> weight w a = weight w b.
Proof.
  induction 1; simpl; lia.
Qed.

Lemma count_indicator (p : Event -> bool) (tr : Trace) :
  Z.of_nat (count p tr) = weight (indicator p) tr.
Proof.
  unfold count, indicator.
  induction tr as [|ev tr IH]; simpl; [reflexivity |].
  destruct (p ev); simpl List.length; lia.
Qed.

Lemma count_app (p : Event -> bool) (a b : Trace) :
  count p (a ++ b) = count p a + count p b.
Proof.
  unfold count. now rewrite filter_app, length_app.
Qed.

(** ** Shuffles *)

Lemma Shuffle_Permutation {X : Type} (ls : list (list X)) (tr : list X) :
  Shuffle ls tr -> Permutation tr (concat ls).
Proof.
  induction 1 as [ls Hnil | l1 blk l l2 tr _ IH].
  - induction Hnil as [|l ls -> _ IH]; simpl; auto.
  - rewrite concat_app in *. simpl in *. rewrite <- app_assoc.
    etransitivity; [apply Permutation_app_head, IH |].
    apply Permutation_app_swap_app.
Qed.

Lemma Shuffle_nil_cons {X : Type} (ls : list (list X)) (tr : list X) :
  Shuffle ls tr -> Shuffle ([] :: ls) tr.
Proof.
  induction 1 as [ls Hnil | l1 blk l l2 tr _ IH].
  - apply ShuffleDone. now constructor.
  - apply (ShuffleTake ([] :: l1)). exact IH.
Qed.

Lemma Shuffle_concat {X : Type} (ls : list (list X)) :
  Shuffle ls (concat ls).
Proof.
  induction ls as [|l ls IH]; simpl.
  - apply ShuffleDone. constructor.
  - pose proof (ShuffleTake [] l [] ls (concat ls)) as H.
    simpl in H. rewrite app_nil_r in H. apply H.
    now apply Shuffle_nil_cons.
Qed.

(** ** Runs *)

Lemma exec_Run {A : Type} (t : Async A) :
  forall env now, Run t (trace env now t) (outcome env now t).
Proof.
  unfold trace, outcome.
  induction t as [A a | A e | A R c k IH | A t' IH' k IH];
    intros env now; simpl; auto.
  - exists (env _ c now). specialize (IH (env _ c now) env (S now)).
    destruct (exec env (S now) (k (env _ c now))) as [tr o]. simpl in *. eauto.
  - specialize (IH' env now). destruct (exec env now t') as [tr1 o1].
    simpl in IH'.
    specialize (IH env (now + List.length (tr1 ++ unhandled o1))).
    destruct (exec env _ k) as [tr2 o2]. simpl in *.
    exists tr1, o1, tr2. rewrite <- app_assoc. auto.
Qed.

(** The run of a sequence and of a [try] under an environment. *)
Lemma exec_andThen {A : Type} (m : Async A) :
  forall (B : Type) (f : A -> Async B) (env : Env) (now : nat),
    exec env now (andThen m f) =
    match exec env now m with
    | (tr1, Ok a) =>
        let '(tr2, o2) := exec env (now + length tr1) (f a) in
        (tr1 ++ tr2, o2)
    | (tr1, Err e) => (tr1, Err e)
    end.
Proof.
  induction m as [A a | A e | A R c k IH | A t' _ k IH];
    intros B f env now; simpl.
  - rewrite Nat.add_0_r. now destruct (exec env now (f a)).
  - reflexivity.
  - rewrite IH. destruct (exec env (S now) (k (env R c now))) as [tr1 [a | e]].
    + simpl. rewrite Nat.add_succ_r.
      now destruct (exec env (S (now + length tr1)) (f a)).
    + reflexivity.
  - destruct (exec env now t') as [trb ob]. rewrite IH.
    destruct (exec env (now + length (trb ++ unhandled ob)) k)
      as [tr1 [a | e]].
    + rewrite (length_app (trb ++ unhandled ob) tr1), Nat.add_assoc.
      destruct (exec env _ (f a)) as [tr2 o2]. now rewrite app_assoc.
    + reflexivity.
Qed.

Lemma exec_tryCatch {A : Type} (m : Async A) :
  forall (h : Error -> Async A) (env : Env) (now : nat),
    exec env now (tryCatch m h) =
    match exec env now m with
    | (tr1, Ok a) => (tr1, Ok a)
    | (tr1, Err e) =>
        let '(tr2, o2) := exec env (now + length tr1) (h e) in
        (tr1 ++ tr2, o2)
    end.
Proof.
  induction m as [A a | A e | A R c k IH | A t' _ k IH];
    intros h env now; simpl.
  - reflexivity.
  - rewrite Nat.add_0_r. now destruct (exec env now (h e)).
  - rewrite IH. destruct (exec env (S now) (k (env R c now))) as [tr1 [a | e]].
    + reflexivity.
    + simpl. rewrite Nat.add_succ_r.
      now destruct (exec env (S (now + length tr1)) (h e)).
  - destruct (exec env now t') as [trb ob]. rewrite IH.
    destruct (exec env (now + length (trb ++ unhandled ob)) k)
      as [tr1 [a | e]].
    + reflexivity.
    + rewrite (length_app (trb ++ unhandled ob) tr1), Nat.add_assoc.
      destruct (exec env _ (h e)) as [tr2 o2]. now rewrite app_assoc.
Qed.

(** Conversely every run is the run under some environment: the
    environments range over all the runs. *)

Lemma answerOf_same {R : Type} (c : Request R) (r : R) :
  answerOf c (EvCall c r) = Some r.
Proof. destruct c; reflexivity. Qed.

Lemma replay_here {R : Type} (c : Request R) (r : R) pre post :
  replay (pre ++ EvCall c r :: post) R c (length pre) = r.
Proof.
  unfold replay. rewrite nth_error_app2 by lia. rewrite Nat.sub_diag.
  cbn [nth_error]. now rewrite answerOf_same.
Qed.

Lemma exec_replay {A : Type} (t : Async A) :
  forall tr o,
    Run t tr o ->
    forall pre post,
      exec (replay (pre ++ tr ++ post)) (length pre) t = (tr, o).
Proof.
  induction t as [A a | A e | A R c k IH | A t' IH' k IH];
    intros tr o H pre post; simpl in H.
  - destruct H as [-> ->]. reflexivity.
  - destruct H as [-> ->]. reflexivity.
  - destruct H as (r & tr' & -> & H). simpl.
    rewrite replay_here.
    specialize (IH r tr' o H (pre ++ [EvCall c r]) post).
    rewrite <- app_assoc in IH. simpl in IH.
    rewrite length_app in IH. simpl in IH. rewrite Nat.add_1_r in IH.
    now rewrite IH.
  - destruct H as (tr1 & o1 & tr2 & H1 & H2 & ->). simpl.
    specialize (IH' tr1 o1 H1 pre (unhandled o1 ++ tr2 ++ post)).
    rewrite <- !app_assoc. rewrite IH'.
    specialize (IH tr2 o H2 (pre ++ tr1 ++ unhandled o1) post).
    rewrite <- !app_assoc in IH. rewrite !length_app in IH.
    rewrite !length_app. rewrite IH. now rewrite <- app_assoc.
Qed.

Lemma Run_exec {A : Type} (t : Async A) tr o :
  Run t tr o -> exists env, trace env 0 t = tr /\ outcome env 0 t = o.
Proof.
  intros H. exists (replay tr). unfold trace, outcome.
  pose proof (exec_replay t tr o H [] []) as E. simpl in E.
  rewrite app_nil_r in E. now rewrite E.
Qed.

Lemma Run_andThen {A : Type} (m : Async A) :
  forall (B : Type) (f : A -> Async B) tr o,
    Run (andThen m f) tr o ->
    (exists a tr1 tr2,
        Run m tr1 (Ok a) /\ Run (f a) tr2 o /\ tr = tr1 ++ tr2)
    \/ (exists e, Run m tr (Err e) /\ o = Err e).
Proof.
  induction m as [A a | A e | A R c k IH | A t' _ k IH];
    intros B f tr o H; simpl in H.
  - left. exists a, [], tr. simpl. auto.
  - right. destruct H as [-> ->]. exists e. simpl. auto.
  - destruct H as (r & tr' & -> & H). apply IH in H.
    destruct H as [(a & tr1 & tr2 & H1 & H2 & ->) | (e & H1 & ->)].
    + left. exists a, (EvCall c r :: tr1), tr2. simpl. eauto 7.
    + right. exists e. simpl. eauto.
  - destruct H as (tr1 & o1 & tr2 & H1 & H2 & ->). apply IH in H2.
    destruct H2 as [(a & t1 & t2 & H3 & H4 & ->) | (e & H3 & ->)].
    + left. exists a, (tr1 ++ unhandled o1 ++ t1), t2. simpl.
      repeat split; eauto 7. now rewrite <- !app_assoc.
    + right. exists e. simpl. eauto 7.
Qed.

Lemma Run_tryCatch {A : Type} (m : Async A) :
  forall (h : Error -> Async A) tr o,
    Run (tryCatch m h) tr o ->
    (exists a, Run m tr (Ok a) /\ o = Ok a)
    \/ (exists e tr1 tr2,
           Run m tr1 (Err e) /\ Run (h e) tr2 o /\ tr = tr1 ++ tr2).
Proof.
  induction m as [A a | A e | A R c k IH | A t' _ k IH];
    intros h tr o H; simpl in H.
  - left. destruct H as [-> ->]. exists a. simpl. auto.
  - right. exists e, [], tr. simpl. auto.
  - destruct H as (r & tr' & -> & H). apply IH in H.
    destruct H as [(a & H1 & ->) | (e & tr1 & tr2 & H1 & H2 & ->)].
    + left. exists a. simpl. eauto.
    + right. exists e, (EvCall c r :: tr1), tr2. simpl. eauto 7.
  - destruct H as (tr1 & o1 & tr2 & H1 & H2 & ->). apply IH in H2.
    destruct H2 as [(a & H3 & ->) | (e & t1 & t2 & H3 & H4 & ->)].
    + left. exists a. simpl. eauto 7.
    + right. exists e, (tr1 ++ unhandled o1 ++ t1), t2. simpl.
      repeat split; eauto 7. now rewrite <- !app_assoc.
Qed.

Lemma Run_settle {B : Type} (t : Async B) tr o :
  Run (settle t) tr o -> exists o', o = Ok o' /\ Run t tr o'.
Proof.
  unfold settle. intros H. apply Run_tryCatch in H.
  destruct H as [(a & H & ->) | (e & tr1 & tr2 & H1 & H2 & ->)].
  - apply Run_andThen in H.
    destruct H as [(v & t1 & t2 & H1 & H2 & ->) | (e & _ & He)];
      [| discriminate].
    simpl in H2. destruct H2 as [-> H2]. injection H2 as ->.
    rewrite app_nil_r. eauto.
  - apply Run_andThen in H1.
    destruct H1 as [(v & t1 & t2 & _ & H3 & _) | (e' & H1 & He)].
    + simpl in H3. destruct H3 as [_ H3]. discriminate.
    + injection He as <-. simpl in H2. destruct H2 as [-> ->].
      rewrite app_nil_r. eauto.
Qed.

(** ** [Promise.all]: every run is a shuffle of runs of the promises *)

Lemma Run_settleAll {B : Type} (ts : list (Async B)) :
  forall rej tr o,
    Run (settleAll ts rej) tr o ->
    exists rs,
      RunsOf ts rs /\ tr = concat (map fst rs) /\
      (rej = None -> AllOk rs ->
       exists vs, o = Ok vs /\ map snd rs = map Ok vs).
Proof.
  unfold RunsOf, AllOk.
  induction ts as [|t ts IH]; intros rej tr o H.
  - exists []. destruct rej as [e|]; simpl in H; destruct H as [-> ->];
      (split; [constructor | split; [reflexivity |]]).
    + discriminate.
    + intros _ _. exists []. auto.
  - simpl in H. apply Run_andThen in H.
    destruct H as [(a & tr1 & tr2 & H1 & H2 & ->) | (e & H1 & _)];
      apply Run_settle in H1; destruct H1 as (o' & Ho' & H1);
      [| discriminate].
    injection Ho' as <-. destruct a as [v | e].
    + apply Run_andThen in H2.
      destruct H2 as [(vs & t1 & t2 & H3 & H4 & ->) | (e & H3 & ->)];
        apply IH in H3; destruct H3 as (rs & Hrs & -> & Hok).
      * simpl in H4. destruct H4 as [-> ->]. exists ((tr1, Ok v) :: rs).
        split; [constructor; auto |]. split; [simpl; now rewrite app_nil_r |].
        intros Hrej Hall. inversion Hall as [|? ? _ Hall' Heq]. clear Heq.
        destruct (Hok Hrej Hall') as (vs' & Hvs & Hmap).
        injection Hvs as <-. exists (v :: vs). simpl. now rewrite Hmap.
      * exists ((tr1, Ok v) :: rs).
        split; [constructor; auto |]. split; [reflexivity |].
        intros Hrej Hall. inversion Hall as [|? ? _ Hall' Heq]. clear Heq.
        destruct (Hok Hrej Hall') as (vs' & Hvs & _). discriminate.
    + apply IH in H2. destruct H2 as (rs & Hrs & -> & _).
      exists ((tr1, Err e) :: rs).
      split; [constructor; auto |]. split; [reflexivity |].
      intros _ Hall. inversion Hall as [|? ? Hbad _]; subst. discriminate.
Qed.

Lemma noteRejection_ok {B : Type} (t : Async B) tr o :
  Run t tr o -> isOk o = true -> noteRejection None t = None.
Proof.
  destruct t; simpl; auto. intros [_ ->]. discriminate.
Qed.

Lemma Run_allSteps {B : Type} (sched : list nat) :
  forall (ts : list (Async B)) rej tr o,
    Run (allSteps sched ts rej) tr o ->
    exists rs,
      RunsOf ts rs /\ Shuffle (map fst rs) tr /\
      (rej = None -> AllOk rs ->
       exists vs, o = Ok vs /\ map snd rs = map Ok vs).
Proof.
  unfold RunsOf, AllOk.
  induction sched as [|i sched IH]; intros ts rej tr o H.
  - simpl in H. apply Run_settleAll in H.
    destruct H as (rs & Hrs & -> & Hok). exists rs.
    split; [exact Hrs |]. split; [apply Shuffle_concat | exact Hok].
  - simpl in H. destruct (nth_error ts i) as [t|] eqn:E; [| now apply IH].
    destruct t as [a | e | R c k | t' k]; try (now apply IH).
    + destruct H as (r & tr' & -> & H). apply IH in H.
      destruct H as (rs & Hrs & Hsh & Hok).
      apply nth_error_cut in E. destruct E as (l1 & l2 & -> & <-).
      rewrite update_app in Hrs. apply Forall2_app_inv_l in Hrs.
      destruct Hrs as (r1 & r2 & Hr1 & Hr2 & ->).
      inversion Hr2 as [|? x ? r2' Hx Hr2']; subst.
      exists (r1 ++ (EvCall c r :: fst x, snd x) :: r2').
      split; [| split].
      * apply Forall2_app; [exact Hr1 |]. constructor; [| exact Hr2'].
        simpl. eauto.
      * rewrite map_app in *. simpl in *.
        apply (ShuffleTake (map fst r1) [EvCall c r] (fst x) (map fst r2') tr').
        exact Hsh.
      * intros -> Hall. apply Forall_app in Hall. destruct Hall as [Ha Hb].
        inversion Hb as [|? ? Hx' Hb']; subst. simpl in Hx'.
        rewrite (noteRejection_ok _ _ _ Hx Hx') in Hok.
        destruct Hok as (vs & -> & Hmap); [reflexivity | |].
        { apply Forall_app. split; [exact Ha | now constructor]. }
        exists vs. split; [reflexivity |].
        rewrite map_app in *. exact Hmap.
    + destruct H as (tr1 & o1 & tr2 & H1 & H & ->). apply IH in H.
      destruct H as (rs & Hrs & Hsh & Hok).
      apply nth_error_cut in E. destruct E as (l1 & l2 & -> & <-).
      rewrite update_app in Hrs. apply Forall2_app_inv_l in Hrs.
      destruct Hrs as (r1 & r2 & Hr1 & Hr2 & ->).
      inversion Hr2 as [|? x ? r2' Hx Hr2']; subst.
      exists (r1 ++ ((tr1 ++ unhandled o1) ++ fst x, snd x) :: r2').
      split; [| split].
      * apply Forall2_app; [exact Hr1 |]. constructor; [| exact Hr2'].
        simpl. exists tr1, o1, (fst x). rewrite <- app_assoc. auto.
      * rewrite map_app in *. simpl in *. rewrite app_assoc.
        apply (ShuffleTake (map fst r1) (tr1 ++ unhandled o1) (fst x)
                           (map fst r2') tr2).
        exact Hsh.
      * intros -> Hall. apply Forall_app in Hall. destruct Hall as [Ha Hb].
        inversion Hb as [|? ? Hx' Hb']; subst. simpl in Hx'.
        rewrite (noteRejection_ok _ _ _ Hx Hx') in Hok.
        destruct Hok as (vs & -> & Hmap); [reflexivity | |].
        { apply Forall_app. split; [exact Ha | now constructor]. }
        exists vs. split; [reflexivity |].
        rewrite map_app in *. exact Hmap.
Qed.

Lemma Run_Promise_all {B : Type} (ts : list (Async B)) tr o :
  Run (Promise_all ts) tr o ->
  exists sched tr' rs,
    tr = EvCall (Interleaving (length ts)) sched :: tr' /\
    RunsOf ts rs /\ Shuffle (map fst rs) tr' /\
    (firstRejected ts = None -> AllOk rs ->
     exists vs, o = Ok vs /\ map snd rs = map Ok vs).
Proof.
  unfold Promise_all. simpl. intros (sched & tr' & -> & H).
  apply Run_allSteps in H. destruct H as (rs & H).
  exists sched, tr', rs. split; [reflexivity | exact H].
Qed.

(** *** What [Promise.all] keeps of its promises *)

Lemma RunsOf_length {B : Type} (ts : list (Async B)) rs :
  RunsOf ts rs -> length rs = length ts.
Proof.
  intros H. symmetry. exact (Forall2_length H).
Qed.

Lemma RunsOf_weight {B : Type} (w : Event -> Z) (n : Z)
  (ts : list (Async B)) rs :
  Forall (fun t => forall tr o, Run t tr o -> weight w tr = n) ts ->
  RunsOf ts rs ->
  weight w (concat (map fst rs)) = (n * Z.of_nat (length ts))%Z.
Proof.
  intros Hts Hrs. induction Hrs as [|t r ts rs Hr _ IH]; [simpl; lia |].
  inversion Hts as [|? ? Ht Hts']; subst.
  simpl concat. rewrite weight_app, (Ht _ _ Hr), (IH Hts').
  simpl length. lia.
Qed.

Lemma RunsOf_AllOk {B : Type} (ts : list (Async B)) rs :
  Forall (fun t => forall tr o, Run t tr o -> exists v, o = Ok v) ts ->
  RunsOf ts rs -> AllOk rs.
Proof.
  intros Hts Hrs. induction Hrs as [|t r ts rs Hr _ IH]; [constructor |].
  inversion Hts as [|? ? Ht Hts']; subst.
  constructor; [| exact (IH Hts')].
  destruct (Ht _ _ Hr) as (v & ->). reflexivity.
Qed.

Lemma firstRejected_none {B : Type} (ts : list (Async B)) :
  Forall (fun t => forall tr o, Run t tr o -> exists v, o = Ok v) ts ->
  firstRejected ts = None.
Proof.
  unfold firstRejected. induction 1 as [|t ts Ht _ IH]; [reflexivity |].
  simpl. destruct t as [a | e | R c k | t' k]; simpl; try exact IH.
  destruct (Ht [] (Err e)) as (v & Hv); [simpl; auto | discriminate].
Qed.

(** A weight that ignores the scheduler adds up over the promises. *)
Lemma Promise_all_weight {B : Type} (w : Event -> Z) (n : Z)
  (ts : list (Async B)) :
  (forall k s, w (EvCall (Interleaving k) s) = 0%Z) ->
  Forall (fun t => forall tr o, Run t tr o -> weight w tr = n) ts ->
  forall tr o,
    Run (Promise_all ts) tr o ->
    weight w tr = (n * Z.of_nat (length ts))%Z.
Proof.
  intros Hsched Hts tr o H. apply Run_Promise_all in H.
  destruct H as (sched & tr' & rs & -> & Hrs & Hsh & _).
  simpl. rewrite Hsched.
  rewrite (weight_Permutation _ _ _ (Shuffle_Permutation _ _ Hsh)).
  now rewrite (RunsOf_weight w n ts rs Hts Hrs).
Qed.

(** When no promise can reject, [Promise.all] resolves, with one value
    per promise. *)
Lemma Promise_all_resolves {B : Type} (ts : list (Async B)) :
  Forall (fun t => forall tr o, Run t tr o -> exists v, o = Ok v) ts ->
  forall tr o,
    Run (Promise_all ts) tr o ->
    exists vs, o = Ok vs /\ length vs = length ts.
Proof.
  intros Hts tr o H. apply Run_Promise_all in H.
  destruct H as (sched & tr' & rs & _ & Hrs & _ & Hok).
  destruct (Hok (firstRejected_none ts Hts) (RunsOf_AllOk ts rs Hts Hrs))
    as (vs & -> & Hmap).
  exists vs. split; [reflexivity |].
  rewrite <- (RunsOf_length ts rs Hrs).
  rewrite <- (length_map Ok vs), <- Hmap. apply length_map.
Qed.

(** ** The error boundary *)

(** Whatever the callback does, [execWithErrorHandler] resolves. *)
Lemma execWithErrorHandler_resolves (cb : unit -> Async unit) tr o :
  Run (execWithErrorHandler cb) tr o -> o = Ok tt.
Proof.
  unfold execWithErrorHandler. intros H.
  apply Run_tryCatch in H.
  destruct H as [(a & _ & ->) | (e & tr1 & tr2 & _ & H & _)].
  - now destruct a.
  - simpl in H.
    destruct H as (event & t1 & _ & id & t2 & _ & [] & t3 & _ & _ & ->).
    reflexivity.
Qed.

(** A rejection of the awaited callback is reported; the promises the
    callback left un-awaited are not under the boundary. *)
Lemma execWithErrorHandler_reports (cb : unit -> Async unit) tr o :
  Run (execWithErrorHandler cb) tr o ->
  (Run (cb tt) tr (Ok tt))
  \/ (exists e tr1 event id,
         Run (cb tt) tr1 (Err e) /\ tr = tr1 ++ handlerTrace e event id).
Proof.
  unfold execWithErrorHandler. intros H.
  apply Run_tryCatch in H.
  destruct H as [(a & H & ->) | (e & tr1 & tr2 & H1 & H & ->)].
  - left. now destruct a.
  - right. simpl in H.
    destruct H as (event & t1 & -> & id & t2 & -> & [] & t3 & -> & -> & _).
    exists e, tr1, event, id. split; [exact H1 | reflexivity].
Qed.

(** ** The runs of the processing of one grant *)

Lemma Run_processGrant_managed grant tr out :
  Run (processGrant MANAGED grant) tr out ->
  let B := DeploymentAllowance.grantee grant in
  let d :=
    Coin.denom
      (Authorization.spend_limit (DeploymentAllowance.authorization grant)) in
  out = Ok tt /\
  ((exists coin balances,
       Balances.isManaged balances = true /\
       tr = [EvCall (GetBalance B d) (Ok coin);
             EvCall (LoggerDebug (BALANCES_COLLECTED B B balances)) tt;
             EvCall (LoggerDebug (RETRIEVING_DRAINING_DEPLOYMENTS B)) tt])
   \/ (exists e event id,
          tr = EvCall (GetBalance B d) (Err e) :: handlerTrace e event id)).
Proof.
  unfold processGrant. simpl. intros (r & tr1 & -> & H).
  destruct r as [coin | e]; simpl in H.
  - destruct H as ([] & tr2 & -> & [] & tr3 & -> & -> & ->).
    split; [reflexivity |]. left.
    do 2 eexists. split; [| reflexivity]; reflexivity.
  - destruct H
      as (event & tr2 & -> & id & tr3 & -> & [] & tr4 & -> & -> & ->).
    split; [reflexivity |]. right. unfold handlerTrace. eauto.
Qed.

Lemma Run_processGrant_custodial grant tr out :
  Run (processGrant CUSTODIAL grant) tr out ->
  let A := DeploymentAllowance.granter grant in
  let B := DeploymentAllowance.grantee grant in
  let d :=
    Coin.denom
      (Authorization.spend_limit (DeploymentAllowance.authorization grant)) in
  out = Ok tt /\
  ((exists fa coin balances,
       Balances.isManaged balances = false /\
       tr = [EvCall (GetFeeAllowanceForGranterAndGrantee A B) (Ok fa);
             EvCall (GetBalance A d) (Ok coin);
             EvCall (LoggerDebug (BALANCES_COLLECTED A B balances)) tt;
             EvCall (LoggerDebug (RETRIEVING_DRAINING_DEPLOYMENTS A)) tt])
   \/ (exists e event id,
          tr = EvCall (GetFeeAllowanceForGranterAndGrantee A B) (Err e)
               :: handlerTrace e event id)
   \/ (exists fa e event id,
          tr = EvCall (GetFeeAllowanceForGranterAndGrantee A B) (Ok fa)
               :: EvCall (GetBalance A d) (Err e)
               :: handlerTrace e event id)).
Proof.
  unfold processGrant. simpl. intros (r & tr1 & -> & H).
  destruct r as [fa | e]; simpl in H.
  - destruct H as (r & tr2 & -> & H). destruct r as [coin | e]; simpl in H.
    + destruct H as ([] & tr3 & -> & [] & tr4 & -> & -> & ->).
      split; [reflexivity |]. left.
      do 3 eexists. split; [| reflexivity]; reflexivity.
    + destruct H
        as (event & tr3 & -> & id & tr4 & -> & [] & tr5 & -> & -> & ->).
      split; [reflexivity |]. right. right. unfold handlerTrace. eauto 6.
  - destruct H
      as (event & tr2 & -> & id & tr3 & -> & [] & tr4 & -> & -> & ->).
    split; [reflexivity |]. right. left. unfold handlerTrace. eauto.
Qed.

(** Case analysis on the runs of [processGrant]. *)
Ltac grant_runs H :=
  match type of H with
  | Run (processGrant CUSTODIAL _) _ _ =>
      apply Run_processGrant_custodial in H
  | Run (processGrant MANAGED _) _ _ =>
      apply Run_processGrant_managed in H
  | Run (processGrant ?o _) _ _ =>
      is_var o; destruct o;
      [apply Run_processGrant_custodial in H
      | apply Run_processGrant_managed in H]
  end;
  cbv zeta in H; destruct H as [-> H];
  repeat match goal with
         | H' : _ \/ _ |- _ => destruct H'
         | H' : exists _, _ |- _ => destruct H'
         | H' : _ /\ _ |- _ => destruct H'
         end;
  subst.

Lemma processGrant_resolves ownerType grant tr out :
  Run (processGrant ownerType grant) tr out -> out = Ok tt.
Proof.
  apply execWithErrorHandler_resolves.
Qed.

Lemma processGrant_pending registry ownerType grant tr out :
  Run (processGrant ownerType grant) tr out ->
  weight (pending registry) tr = (-1)%Z.
Proof.
  intros H. grant_runs H; reflexivity.
Qed.

Lemma processGrant_no_policy ownerType grant tr out :
  Run (processGrant ownerType grant) tr out ->
  weight (indicator isPolicyInvocation) tr = 0%Z.
Proof.
  intros H. grant_runs H; reflexivity.
Qed.

Lemma processGrant_no_unhandled ownerType grant tr out :
  Run (processGrant ownerType grant) tr out ->
  weight (indicator isUnhandledRejection) tr = 0%Z.
Proof.
  intros H. grant_runs H; reflexivity.
Qed.

Lemma processGrant_custodial_side grant tr out :
  Run (processGrant CUSTODIAL grant) tr out ->
  weight (indicator isManagedSide) tr = 0%Z.
Proof.
  intros H. grant_runs H; try reflexivity.
  unfold weight, indicator. simpl.
  match goal with Hb : Balances.isManaged _ = _ |- _ => rewrite Hb end.
  reflexivity.
Qed.

Lemma processGrant_managed_side grant tr out :
  Run (processGrant MANAGED grant) tr out ->
  weight (indicator isCustodialSide) tr = 0%Z.
Proof.
  intros H. grant_runs H; try reflexivity.
  unfold weight, indicator. simpl.
  match goal with Hb : Balances.isManaged _ = _ |- _ => rewrite Hb end.
  reflexivity.
Qed.

(** ** One pass: a wallet, its pages, their grants *)

Lemma skipn_head {X : Type} (d x : X) (rest : list X) :
  forall (n : nat) (l : list X),
    skipn n l = x :: rest -> nth n l d = x /\ skipn (S n) l = rest.
Proof.
  induction n as [|n IH]; intros l H.
  - destruct l as [|y l]; [discriminate |]. simpl in H.
    injection H as -> ->. auto.
  - destruct l as [|y l]; [discriminate |]. simpl in H.
    destruct (IH l H) as [Hn Hs]. simpl. auto.
Qed.

Section PassWeight.

Variable registry :
  PaginationOptions.t -> list (list DeploymentAllowance.t).

(** A weight [w] that ignores the scheduler, gives [wg] to the
    processing of a grant of this pass and [- wg] per grant to a page
    fetched on this side. *)
Variable w : Event -> Z.
Variable wg : Z.
Variable ownerType : OwnerType.
Variable side : Side.

Hypothesis w_scheduler :
  forall k s, w (EvCall (Interleaving k) s) = 0%Z.

Hypothesis w_grant :
  forall grant tr o,
    Run (processGrant ownerType grant) tr o -> weight w tr = wg.

Hypothesis w_fetch :
  forall options page r,
    PaginationOptions.side options = side ->
    w (EvCall (FetchDeploymentGrantsPage options page) r) =
    match r with
    | Ok _ =>
        (- wg * Z.of_nat (length (nth page (registry options) [])))%Z
    | Err _ => 0%Z
    end.

Lemma processPage_runs grants tr o :
  Run (processPage ownerType grants) tr o ->
  weight w tr = (wg * Z.of_nat (length grants))%Z /\ o = Ok tt.
Proof.
  unfold processPage. intros H. apply Run_andThen in H.
  assert (Hres : Forall (fun t : Async unit =>
                           forall tr o, Run t tr o -> exists v, o = Ok v)
                        (map (processGrant ownerType) grants)).
  { apply Forall_forall. intros t Ht. apply in_map_iff in Ht.
    destruct Ht as (grant & <- & _). intros tr' o' H'.
    exists tt. exact (processGrant_resolves _ _ _ _ H'). }
  destruct H as [(vs & tr1 & tr2 & H1 & H2 & ->) | (e & H1 & _)].
  - simpl in H2. destruct H2 as [-> ->]. rewrite app_nil_r.
    split; [| reflexivity].
    assert (Hwts : Forall (fun t : Async unit =>
                             forall tr o, Run t tr o -> weight w tr = wg)
                          (map (processGrant ownerType) grants)).
    { apply Forall_forall. intros t Ht. apply in_map_iff in Ht.
      destruct Ht as (grant & <- & _). apply w_grant. }
    rewrite (Promise_all_weight w wg _ w_scheduler Hwts _ _ H1).
    now rewrite length_map.
  - destruct (Promise_all_resolves _ Hres _ _ H1) as (vs & Hvs & _).
    discriminate.
Qed.

Lemma paginatePages_weight options :
  PaginationOptions.side options = side ->
  forall pages page tr o,
    skipn page (registry options) = pages ->
    Run (paginatePages options page pages (processPage ownerType)) tr o ->
    weight w tr = 0%Z.
Proof.
  intros Hside. induction pages as [|grants rest IH];
    intros page tr o Hskip H; cbn in H.
  - destruct H as [-> _]. reflexivity.
  - destruct (skipn_head [] grants rest page _ Hskip) as [Hnth Hrest].
    destruct H as (r & tr' & -> & H). rewrite weight_cons.
    rewrite (w_fetch options page r Hside).
    destruct r as [[] | e]; cbn in H.
    + rewrite Hnth. apply Run_andThen in H.
      destruct H as [([] & tr1 & tr2 & H1 & H2 & ->) | (e & H1 & _)];
        apply processPage_runs in H1; destruct H1 as [Hw Ho];
        [| discriminate].
      rewrite weight_app, Hw, (IH _ _ _ Hrest H2). lia.
    + destruct H as [-> _]. reflexivity.
Qed.

Lemma reconcileWallet_weight wallet tr o :
  (forall r, w (EvCall (GetFirstAddress wallet) r) = 0%Z) ->
  Run (reconcileWallet registry wallet side ownerType) tr o ->
  weight w tr = 0%Z.
Proof.
  intros Hw. unfold reconcileWallet, paginateDeploymentGrants. simpl.
  intros (r & tr' & -> & H). simpl. rewrite Hw.
  destruct r as [address | e]; simpl in H.
  - eapply paginatePages_weight in H; [exact H | reflexivity | reflexivity].
  - destruct H as [-> _]. reflexivity.
Qed.

End PassWeight.

(** ** The whole run *)

Lemma topUpDeployments_passes registry :
  topUpDeployments registry =
  (Promise_all
     (map (fun wallet =>
             reconcileWallet registry wallet granteeSide CUSTODIAL)
          wallets) ;;
   reconcileWallet registry managedMasterWalletService granterSide MANAGED).
Proof. reflexivity. Qed.

(** The managed pass starts when the custodial passes have all
    resolved; it does not start when one of them rejected. *)
Lemma Run_topUpDeployments registry tr o :
  Run (topUpDeployments registry) tr o ->
  exists tr1 o1 tr2,
    tr = tr1 ++ tr2 /\
    Run (Promise_all (topUpAllCustodialDeployments registry)) tr1 o1 /\
    ((isOk o1 = true /\
      Run (reconcileWallet registry managedMasterWalletService
                           granterSide MANAGED) tr2 o)
     \/ (isOk o1 = false /\ tr2 = [])).
Proof.
  rewrite topUpDeployments_passes. intros H. apply Run_andThen in H.
  destruct H as [(vs & tr1 & tr2 & H1 & H2 & ->) | (e & H1 & ->)].
  - exists tr1, (Ok vs), tr2. auto.
  - exists tr, (Err e), []. rewrite app_nil_r. auto.
Qed.

Lemma custodial_passes_weight registry (w : Event -> Z) (wg : Z) :
  (forall k s, w (EvCall (Interleaving k) s) = 0%Z) ->
  (forall grant tr o,
      Run (processGrant CUSTODIAL grant) tr o -> weight w tr = wg) ->
  (forall options page r,
      PaginationOptions.side options = granteeSide ->
      w (EvCall (FetchDeploymentGrantsPage options page) r) =
      match r with
      | Ok _ =>
          (- wg * Z.of_nat (length (nth page (registry options) [])))%Z
      | Err _ => 0%Z
      end) ->
  (forall wallet r,
      In wallet wallets -> w (EvCall (GetFirstAddress wallet) r) = 0%Z) ->
  forall tr o,
    Run (Promise_all (topUpAllCustodialDeployments registry)) tr o ->
    weight w tr = 0%Z.
Proof.
  intros Hs Hg Hf Ha tr o H.
  assert (Hwts : Forall (fun t : Async unit =>
                           forall tr o, Run t tr o -> weight w tr = 0%Z)
                        (topUpAllCustodialDeployments registry)).
  { apply Forall_forall. intros t Ht. apply in_map_iff in Ht.
    destruct Ht as (wallet & <- & Hin). intros tr' o' H'.
    apply (reconcileWallet_weight registry w wg CUSTODIAL granteeSide
             Hs Hg Hf wallet tr' o'); [| exact H'].
    intros r. now apply Ha. }
  rewrite (Promise_all_weight w 0 _ Hs Hwts _ _ H). lia.
Qed.

(** A weight that both passes cancel is null on every run. *)
Lemma topUpDeployments_weight registry (w : Event -> Z) (wg : Z) :
  (forall k s, w (EvCall (Interleaving k) s) = 0%Z) ->
  (forall ownerType grant tr o,
      Run (processGrant ownerType grant) tr o -> weight w tr = wg) ->
  (forall options page r,
      w (EvCall (FetchDeploymentGrantsPage options page) r) =
      match r with
      | Ok _ =>
          (- wg * Z.of_nat (length (nth page (registry options) [])))%Z
      | Err _ => 0%Z
      end) ->
  (forall wallet r, w (EvCall (GetFirstAddress wallet) r) = 0%Z) ->
  forall tr o,
    Run (topUpDeployments registry) tr o -> weight w tr = 0%Z.
Proof.
  intros Hs Hg Hf Ha tr o H. apply Run_topUpDeployments in H.
  destruct H as (tr1 & o1 & tr2 & -> & H1 & H2).
  rewrite weight_app.
  rewrite (custodial_passes_weight registry w wg Hs (Hg CUSTODIAL)
             (fun options page r _ => Hf options page r)
             (fun wallet r _ => Ha wallet r) tr1 o1 H1).
  destruct H2 as [[_ H2] | [_ ->]]; [| reflexivity].
  now rewrite (reconcileWallet_weight registry w wg MANAGED granterSide
                 Hs (Hg MANAGED) (fun options page r _ => Hf options page r)
                 managedMasterWalletService tr2 o (Ha _) H2).
Qed.

(** ** More on measures *)

Lemma weight_sub (f g : Event -> Z) (tr : Trace) :
  weight (fun ev => (f ev - g ev)%Z) tr = (weight f tr - weight g tr)%Z.
Proof.
  induction tr as [|ev tr IH]; simpl; [reflexivity | rewrite IH; lia].
Qed.

Lemma count_zero (p : Event -> bool) (tr : Trace) :
  weight (indicator p) tr = 0%Z -> count p tr = 0.
Proof.
  rewrite <- count_indicator. lia.
Qed.

(** ** More on the processing of one grant *)

(** Unfolds the runs of a computation whose calls are all in sight. *)
Ltac run_cases H :=
  repeat (simpl in H;
          match type of H with
          | exists _, _ =>
              let r := fresh "r" in
              let tr := fresh "tr" in
              destruct H as (r & tr & -> & H); try destruct r
          | _ /\ _ => destruct H as [-> ->]
          end).

Lemma processGrant_completes ownerType grant tr out :
  Run (processGrant ownerType grant) tr out ->
  weight (indicator isCompletion) tr = 1%Z.
Proof.
  intros H. grant_runs H; reflexivity.
Qed.

Lemma processGrant_reports ownerType grant tr out :
  Run (processGrant ownerType grant) tr out ->
  forall ev e, In ev tr -> failureOf ev = Some e -> reported e tr.
Proof.
  intros H ev e Hin Hfail. unfold reported.
  grant_runs H; simpl in Hin;
    repeat match goal with
           | Hor : _ \/ _ |- _ => destruct Hor
           | Hf : False |- _ => destruct Hf
           end;
    subst; simpl in Hfail; try discriminate;
    injection Hfail as ->.
  - exists [EvCall (GetFeeAllowanceForGranterAndGrantee
                      (DeploymentAllowance.granter grant)
                      (DeploymentAllowance.grantee grant)) (Err e)].
    do 2 eexists; reflexivity.
  - match goal with
    | |- context [EvCall (GetFeeAllowanceForGranterAndGrantee ?a ?b) (Ok ?fa)
                  :: EvCall (GetBalance ?c ?d) (Err e) :: _] =>
        exists [EvCall (GetFeeAllowanceForGranterAndGrantee a b) (Ok fa);
                EvCall (GetBalance c d) (Err e)]
    end.
    do 2 eexists; reflexivity.
  - match goal with
    | |- context [EvCall (GetBalance ?c ?d) (Err e) :: _] =>
        exists [EvCall (GetBalance c d) (Err e)]
    end.
    do 2 eexists; reflexivity.
Qed.

Lemma topUpForGrant_runs ownerType grant tr out :
  Run (topUpForGrant ownerType grant) tr out ->
  count isPolicyInvocation tr = 0 /\ count isUnhandledRejection tr = 0.
Proof.
  intros H. destruct ownerType; run_cases H; split; reflexivity.
Qed.

(** ** [collectWalletBalances] under an environment *)

Lemma exec_collectWalletBalances_managed (env : Env) (now : nat) grant :
  let B := DeploymentAllowance.grantee grant in
  let spend_limit :=
    Authorization.spend_limit (DeploymentAllowance.authorization grant) in
  let r := env _ (GetBalance B (Coin.denom spend_limit)) now in
  exec env now (collectWalletBalances MANAGED grant) =
  ([EvCall (GetBalance B (Coin.denom spend_limit)) r],
   match r with
   | Ok coin =>
       Ok {| Balances.denom := Coin.denom spend_limit;
             Balances.feesLimit := UNLIMITED_FEES_MANAGED_BALANCE;
             Balances.deploymentLimit := parseFloat (Coin.amount spend_limit);
             Balances.balance := parseFloat (Coin.amount coin);
             Balances.isManaged := true |}
   | Err e => Err e
   end).
Proof.
  simpl. destruct (env _ _ now) as [coin | e]; reflexivity.
Qed.

Lemma exec_collectWalletBalances_custodial (env : Env) (now : nat) grant :
  let A := DeploymentAllowance.granter grant in
  let B := DeploymentAllowance.grantee grant in
  let spend_limit :=
    Authorization.spend_limit (DeploymentAllowance.authorization grant) in
  let d := Coin.denom spend_limit in
  let rf := env _ (GetFeeAllowanceForGranterAndGrantee A B) now in
  let rb := env _ (GetBalance A d) (S now) in
  exec env now (collectWalletBalances CUSTODIAL grant) =
  match rf with
  | Err e => ([EvCall (GetFeeAllowanceForGranterAndGrantee A B) rf], Err e)
  | Ok fa =>
      ([EvCall (GetFeeAllowanceForGranterAndGrantee A B) rf;
        EvCall (GetBalance A d) rb],
       match rb with
       | Ok coin =>
           Ok {| Balances.denom := d;
                 Balances.feesLimit :=
                   match
                     find (fun limit => String.eqb (Coin.denom limit) d)
                          (Allowance.spend_limit (FeeAllowance.allowance fa))
                   with
                   | Some limit => parseFloat (Coin.amount limit)
                   | None => integerLiteral 0
                   end;
                 Balances.deploymentLimit :=
                   parseFloat (Coin.amount spend_limit);
                 Balances.balance := parseFloat (Coin.amount coin);
                 Balances.isManaged := false |}
       | Err e => Err e
       end)
  end.
Proof.
  simpl.
  destruct (env _ (GetFeeAllowanceForGranterAndGrantee _ _) now)
    as [fa | e]; [| reflexivity].
  simpl. destruct (env _ (GetBalance _ _) (S now)) as [coin | e];
    reflexivity.
Qed.

(** ** Events that no run contains *)

Lemma topUpDeployments_never registry (p : Event -> bool) :
  (forall k s, p (EvCall (Interleaving k) s) = false) ->
  (forall options page r,
      p (EvCall (FetchDeploymentGrantsPage options page) r) = false) ->
  (forall wallet r, p (EvCall (GetFirstAddress wallet) r) = false) ->
  (forall ownerType grant tr o,
      Run (processGrant ownerType grant) tr o ->
      weight (indicator p) tr = 0%Z) ->
  forall tr o, Run (topUpDeployments registry) tr o -> count p tr = 0.
Proof.
  intros Hs Hf Ha Hg tr o H. apply count_zero.
  apply (topUpDeployments_weight registry (indicator p) 0) with (o := o);
    try assumption; unfold indicator; intros.
  - now rewrite Hs.
  - rewrite Hf. destruct r; reflexivity.
  - now rewrite Ha.
Qed.

Lemma pending_balanced registry tr o :
  Run (topUpDeployments registry) tr o ->
  Z.of_nat (count isCompletion tr) = weight (fetched registry) tr.
Proof.
  intros H.
  assert (Hw : weight (pending registry) tr = 0%Z).
  { apply (topUpDeployments_weight registry (pending registry) (-1))
      with (o := o); try assumption; intros.
    - reflexivity.
    - eapply processGrant_pending; eassumption.
    - unfold pending, indicator, fetched, isCompletion.
      destruct r; change (- -1)%Z with 1%Z; lia.
    - reflexivity. }
  unfold pending in Hw. rewrite weight_sub in Hw.
  rewrite count_indicator. lia.
Qed.

(* ================================================================== *)
(** * The properties of the specification *)
(* ================================================================== *)

(** ** Error isolation *)

Lemma processPage_completes ownerType grants tr o :
  Run (processPage ownerType grants) tr o ->
  count isCompletion tr = length grants /\ o = Ok tt.
Proof.
  intros H.
  destruct (processPage_runs (indicator isCompletion) 1 ownerType
              (fun _ _ => eq_refl)
              (processGrant_completes ownerType) grants tr o H)
    as [Hw Ho].
  split; [| exact Ho]. apply Nat2Z.inj. rewrite count_indicator. lia.
Qed.

Lemma processGrants_resolve ownerType grants tr o :
  Run (Promise_all (map (processGrant ownerType) grants)) tr o ->
  exists vs, o = Ok vs /\ length vs = length grants.
Proof.
  intros H.
  assert (Hres : Forall (fun t : Async unit =>
                           forall tr o, Run t tr o -> exists v, o = Ok v)
                        (map (processGrant ownerType) grants)).
  { apply Forall_forall. intros t Ht. apply in_map_iff in Ht.
    destruct Ht as (grant & <- & _). intros tr' o' H'.
    exists tt. exact (processGrant_resolves _ _ _ _ H'). }
  destruct (Promise_all_resolves _ Hres _ _ H) as (vs & -> & Hlen).
  exists vs. now rewrite Hlen, length_map.
Qed.

(** C1.  An error thrown while one grant is processed is caught at the
    boundary of that grant: it is handed to the error sink and logged,
    and the processing of the grant resolves.  So the promises of a
    page all resolve, one per grant, whatever fails and in whatever
    order they take their turns; and over a whole run, every grant of
    every page that was fetched, in any pass, is processed to its
    end. *)
Theorem C1_grant_failures_do_not_stop_the_batch :
  forall registry (env : Env) (now : nat),
    (forall ownerType grant,
        outcome env now (processGrant ownerType grant) = Ok tt /\
        count isCompletion (trace env now (processGrant ownerType grant)) = 1 /\
        (forall ev e,
            In ev (trace env now (processGrant ownerType grant)) ->
            failureOf ev = Some e ->
            reported e (trace env now (processGrant ownerType grant)))) /\
    (forall ownerType grants,
        outcome env now (processPage ownerType grants) = Ok tt /\
        (exists vs,
            outcome env now
              (Promise_all (map (processGrant ownerType) grants)) = Ok vs /\
            length vs = length grants) /\
        count isCompletion (trace env now (processPage ownerType grants))
        = length grants) /\
    Z.of_nat (count isCompletion (trace env now (topUpDeployments registry)))
    = weight (fetched registry) (trace env now (topUpDeployments registry)).
Proof.
  intros registry env now. split; [| split].
  - intros ownerType grant.
    pose proof (exec_Run (processGrant ownerType grant) env now) as H.
    split; [exact (processGrant_resolves _ _ _ _ H) |]. split.
    + apply Nat2Z.inj. rewrite count_indicator.
      exact (processGrant_completes _ _ _ _ H).
    + exact (processGrant_reports _ _ _ _ H).
  - intros ownerType grants.
    pose proof (exec_Run (processPage ownerType grants) env now) as H.
    destruct (processPage_completes _ _ _ _ H) as [Hc Ho].
    split; [exact Ho |]. split; [| exact Hc].
    exact (processGrants_resolve _ _ _ _ (exec_Run _ env now)).
  - exact (pending_balanced _ _ _ (exec_Run _ env now)).
Qed.

(** [topUpForGrant] is the body below at the three stubs. *)
Lemma topUpForGrant_stubs :
  topUpForGrant =
  topUpForGrantWith retrieveDrainingDeployments calculateTopUpAmount
                    validateTopUpAmount.
Proof. reflexivity. Qed.








(** ** The stubs *)

(** C10.  [retrieveDrainingDeployments] resolves to the empty list for
    every owner, so [topUpForGrant] never enters
    [calculateTopUpAmount] or [validateTopUpAmount], and no run of
    [topUpDeployments] contains a policy invocation or a promise left
    to reject. *)
Theorem C10_no_top_up_is_computed_or_validated :
  forall registry (env : Env) (now : nat),
    (forall owner,
        outcome env now (retrieveDrainingDeployments owner) = Ok []) /\
    (forall ownerType grant,
        count isPolicyInvocation
              (trace env now (topUpForGrant ownerType grant)) = 0) /\
    count isPolicyInvocation (trace env now (topUpDeployments registry)) = 0 /\
    count isUnhandledRejection (trace env now (topUpDeployments registry))
    = 0.
Proof.
  intros registry env now. split; [| split; [| split]].
  - intros owner. reflexivity.
  - intros ownerType grant.
    exact (proj1 (topUpForGrant_runs _ _ _ _ (exec_Run _ env now))).
  - apply (topUpDeployments_never registry isPolicyInvocation)
      with (o := outcome env now (topUpDeployments registry));
      try reflexivity; [| apply exec_Run].
    intros ownerType grant tr o. apply processGrant_no_policy.
  - apply (topUpDeployments_never registry isUnhandledRejection)
      with (o := outcome env now (topUpDeployments registry));
      try reflexivity; [| apply exec_Run].
    intros ownerType grant tr o. apply processGrant_no_unhandled.
Qed.

(** ** The order of the passes *)

Lemma custodial_then_managed registry tr o :
  Run (topUpDeployments registry) tr o ->
  exists tr1 tr2,
    tr = tr1 ++ tr2 /\
    count isManagedSide tr1 = 0 /\
    count isCustodialSide tr2 = 0 /\
    weight (pending registry) tr1 = 0%Z /\
    weight (pending registry) tr2 = 0%Z /\
    (tr2 = [] \/
     exists r rest,
       tr2 = EvCall (GetFirstAddress managedMasterWalletService) r :: rest).
Proof.
  intros H. apply Run_topUpDeployments in H.
  destruct H as (tr1 & o1 & tr2 & -> & H1 & H2).
  exists tr1, tr2. split; [reflexivity |].
  split; [| split; [| split; [| split]]]; cycle 4.
  { destruct H2 as [[_ H2] | [_ ->]]; [right | now left].
    unfold reconcileWallet in H2. simpl in H2.
    destruct H2 as (r & rest & -> & _). now exists r, rest. }
  - apply count_zero.
    apply (custodial_passes_weight registry (indicator isManagedSide) 0)
      with (o := o1); try assumption; unfold indicator.
    + reflexivity.
    + intros grant tr o'. apply processGrant_custodial_side.
    + intros options page r Hside. simpl. rewrite Hside.
      destruct r; reflexivity.
    + intros wallet r [<- | [<- | []]]; reflexivity.
  - destruct H2 as [[_ H2] | [_ ->]]; [| reflexivity].
    apply count_zero.
    apply (reconcileWallet_weight registry (indicator isCustodialSide) 0
             MANAGED granterSide) with (wallet := managedMasterWalletService)
                                        (o := o);
      try assumption; unfold indicator.
    + reflexivity.
    + intros grant tr o'. apply processGrant_managed_side.
    + intros options page r Hside. simpl. rewrite Hside.
      destruct r; reflexivity.
    + reflexivity.
  - apply (custodial_passes_weight registry (pending registry) (-1))
      with (o := o1); try assumption.
    + reflexivity.
    + intros grant tr o'. apply processGrant_pending.
    + intros options page r _. unfold pending, indicator, fetched, isCompletion.
      destruct r; change (- -1)%Z with 1%Z; lia.
    + reflexivity.
  - destruct H2 as [[_ H2] | [_ ->]]; [| reflexivity].
    apply (reconcileWallet_weight registry (pending registry) (-1)
             MANAGED granterSide) with (wallet := managedMasterWalletService)
                                        (o := o);
      try assumption.
    + reflexivity.
    + intros grant tr o'. apply processGrant_pending.
    + intros options page r _. unfold pending, indicator, fetched, isCompletion.
      destruct r; change (- -1)%Z with 1%Z; lia.
    + reflexivity.
Qed.

(** C4.  The custodial wallets are paginated concurrently, in no fixed
    order: under the same collaborators the scheduler makes the first
    wallet go through its pages before the second, or the second
    before the first, or makes them alternate.  And there is a barrier
    before the managed pass: every run splits in two, with no event of
    the managed pass in the first part and none of a custodial pass in
    the second, every page fetched in the first part having all its
    grants processed there; the second part, when the custodial passes
    let it run, starts with the managed wallet resolving its address. *)
Theorem C4_custodial_passes_interleave_and_join_before_the_managed_pass :
  (forall registry (env : Env) (now : nat),
      exists tr1 tr2,
        trace env now (topUpDeployments registry) = tr1 ++ tr2 /\
        count isManagedSide tr1 = 0 /\
        count isCustodialSide tr2 = 0 /\
        weight (pending registry) tr1 = 0%Z /\
        weight (pending registry) tr2 = 0%Z /\
        (tr2 = [] \/
         exists r rest,
           tr2 = EvCall (GetFirstAddress managedMasterWalletService) r
                 :: rest)) /\
  pageFetches
    (trace (sampleEnv [uakt "5"] sampleBalances uaktFirst) 0
           (topUpDeployments sampleRegistry))
  = [("uakt-wallet", 0); ("uakt-wallet", 1); ("usdc-wallet", 0);
     ("managed-wallet", 0)] /\
  pageFetches
    (trace (sampleEnv [uakt "5"] sampleBalances usdcFirst) 0
           (topUpDeployments sampleRegistry))
  = [("usdc-wallet", 0); ("uakt-wallet", 0); ("uakt-wallet", 1);
     ("managed-wallet", 0)] /\
  pageFetches
    (trace (sampleEnv [uakt "5"] sampleBalances alternating) 0
           (topUpDeployments sampleRegistry))
  = [("uakt-wallet", 0); ("usdc-wallet", 0); ("uakt-wallet", 1);
     ("managed-wallet", 0)].
Proof.
  split; [| repeat split; vm_compute; reflexivity].
  intros registry env now.
  exact (custodial_then_managed registry _ _ (exec_Run _ env now)).
Qed.

(** ** Balance collection *)

Lemma processGrant_managed_no_fee_lookup grant tr out :
  Run (processGrant MANAGED grant) tr out ->
  count isFeeAllowanceLookup tr = 0.
Proof.
  intros H. grant_runs H; reflexivity.
Qed.

(** C5.  For a managed owner [collectWalletBalances] makes one call,
    the balance fetch: the fee allowance is not looked up, and the
    record it returns has the sentinel [1000000] as [feesLimit].  The
    whole processing of a managed grant looks up no fee allowance. *)
Theorem C5_managed_owner_gets_the_sentinel_without_fee_lookup :
  forall (env : Env) (now : nat) grant,
    count isFeeAllowanceLookup
          (trace env now (collectWalletBalances MANAGED grant)) = 0 /\
    feeLookups (trace env now (collectWalletBalances MANAGED grant)) = [] /\
    match outcome env now (collectWalletBalances MANAGED grant) with
    | Ok balances =>
        Balances.feesLimit balances = UNLIMITED_FEES_MANAGED_BALANCE /\
        Balances.isManaged balances = true
    | Err e =>
        env _ (GetBalance
                 (DeploymentAllowance.grantee grant)
                 (Coin.denom
                    (Authorization.spend_limit
                       (DeploymentAllowance.authorization grant)))) now
        = Err e
    end /\
    UNLIMITED_FEES_MANAGED_BALANCE = S754_finite false 8589934592000000 (-33) /\
    count isFeeAllowanceLookup (trace env now (processGrant MANAGED grant))
    = 0.
Proof.
  intros env now grant. unfold trace, outcome.
  rewrite exec_collectWalletBalances_managed. cbv zeta. simpl fst. simpl snd.
  split; [reflexivity |]. split; [reflexivity |]. split; [| split].
  - destruct (env _ _ now) as [coin | e]; [split |]; reflexivity.
  - reflexivity.
  - exact (processGrant_managed_no_fee_lookup _ _ _ (exec_Run _ env now)).
Qed.

(** C6.  For a custodial owner whose fee allowance has no spend limit
    in the denom of the grant, [retrieveFeesLimit] resolves to [0], and
    the record returned by [collectWalletBalances] (it is returned when
    the balance fetch succeeds) has [feesLimit = 0]. *)
Theorem C6_custodial_owner_without_matching_denom_gets_zero :
  forall (env : Env) (now : nat) grant fa,
    let A := DeploymentAllowance.granter grant in
    let B := DeploymentAllowance.grantee grant in
    let d :=
      Coin.denom
        (Authorization.spend_limit
           (DeploymentAllowance.authorization grant)) in
    env _ (GetFeeAllowanceForGranterAndGrantee A B) now = Ok fa ->
    find (fun limit => String.eqb (Coin.denom limit) d)
         (Allowance.spend_limit (FeeAllowance.allowance fa)) = None ->
    outcome env now (retrieveFeesLimit A B d) = Ok (S754_zero false) /\
    match outcome env now (collectWalletBalances CUSTODIAL grant) with
    | Ok balances => Balances.feesLimit balances = S754_zero false
    | Err e => env _ (GetBalance A d) (S now) = Err e
    end.
Proof.
  intros env now grant fa A B d Hfa Hfind. split.
  - unfold outcome, retrieveFeesLimit. simpl. rewrite Hfa. simpl.
    fold d. rewrite Hfind. reflexivity.
  - unfold outcome. rewrite exec_collectWalletBalances_custodial. cbv zeta.
    fold A B d. rewrite Hfa. simpl snd.
    destruct (env _ (GetBalance A d) (S now)) as [coin | e];
      [| reflexivity].
    simpl. rewrite Hfind. reflexivity.
Qed.

Lemma C6_witness :
  outcome (sampleEnv [{| Coin.denom := "uusdc"; Coin.amount := "5" |}]
                     sampleBalances (fun _ => [])) 0
          (retrieveFeesLimit "wallet1" "owner1" "uakt")
  = Ok (S754_zero false).
Proof.
  exact (proj1
           (C6_custodial_owner_without_matching_denom_gets_zero
              (sampleEnv [{| Coin.denom := "uusdc"; Coin.amount := "5" |}]
                         sampleBalances (fun _ => []))
              0 (mkGrant "wallet1" "owner1" "uakt" "500")
              (mkFeeAllowance
                 [{| Coin.denom := "uusdc"; Coin.amount := "5" |}])
              eq_refl eq_refl)).
Defined.

(** C7.  With granter [A] and grantee [B], a custodial owner has the
    fee allowance looked up from [A] to [B] and, when that succeeds,
    the balance of [A] fetched; a managed owner has the balance of [B]
    fetched and no fee allowance looked up.  [A] and [B] are the first
    elements of the pair of sides and of the reversed pair. *)
Theorem C7_balance_is_fetched_for_the_first_side :
  forall (env : Env) (now : nat) grant,
    let A := DeploymentAllowance.granter grant in
    let B := DeploymentAllowance.grantee grant in
    let d :=
      Coin.denom
        (Authorization.spend_limit
           (DeploymentAllowance.authorization grant)) in
    feeLookups (trace env now (collectWalletBalances CUSTODIAL grant))
    = [(A, B)] /\
    balanceFetches (trace env now (collectWalletBalances CUSTODIAL grant))
    = (if isOk (env _ (GetFeeAllowanceForGranterAndGrantee A B) now)
       then [(A, d)] else []) /\
    feeLookups (trace env now (collectWalletBalances MANAGED grant)) = [] /\
    balanceFetches (trace env now (collectWalletBalances MANAGED grant))
    = [(B, d)] /\
    at_ [A; B] 0 = A /\
    at_ (rev [A; B]) 0 = B.
Proof.
  intros env now grant A B d. unfold trace.
  rewrite exec_collectWalletBalances_custodial,
    exec_collectWalletBalances_managed.
  cbv zeta. fold A B d.
  destruct (env _ (GetFeeAllowanceForGranterAndGrantee A B) now)
    as [fa | e]; repeat split; reflexivity.
Qed.

(** [collectWalletBalances] fails only with the error of a call that
    failed; otherwise the record holds the parsed amounts. *)
Lemma collectWalletBalances_result (env : Env) (now : nat) ownerType grant :
  match outcome env now (collectWalletBalances ownerType grant) with
  | Ok balances =>
      Balances.deploymentLimit balances =
      parseFloat
        (Coin.amount
           (Authorization.spend_limit
              (DeploymentAllowance.authorization grant))) /\
      exists coin,
        In (Ok coin)
           (balanceAnswers
              (trace env now (collectWalletBalances ownerType grant))) /\
        Balances.balance balances = parseFloat (Coin.amount coin)
  | Err e =>
      exists ev,
        In ev (trace env now (collectWalletBalances ownerType grant)) /\
        failureOf ev = Some e
  end.
Proof.
  unfold outcome, trace. destruct ownerType.
  - rewrite exec_collectWalletBalances_custodial. cbv zeta.
    destruct (env _ (GetFeeAllowanceForGranterAndGrantee _ _) now)
      as [fa | e] eqn:Hfa.
    + simpl fst. simpl snd.
      destruct (env _ (GetBalance _ _) (S now)) as [coin | e] eqn:Hb.
      * split; [reflexivity |]. exists coin.
        split; [left |]; reflexivity.
      * eexists. split; [right; left; reflexivity | reflexivity].
    + eexists. split; [left; reflexivity | reflexivity].
  - rewrite exec_collectWalletBalances_managed. cbv zeta.
    simpl fst. simpl snd.
    destruct (env _ _ now) as [coin | e] eqn:Hb.
    + split; [reflexivity |]. exists coin. split; [left |]; reflexivity.
    + eexists. split; [left; reflexivity | reflexivity].
Qed.

(** When no call fails the record is returned. *)
Lemma collectWalletBalances_returns (env : Env) (now : nat) ownerType grant :
  (forall ev,
      In ev (trace env now (collectWalletBalances ownerType grant)) ->
      failureOf ev = None) ->
  exists balances,
    outcome env now (collectWalletBalances ownerType grant) = Ok balances.
Proof.
  intros Hnone.
  pose proof (collectWalletBalances_result env now ownerType grant) as H.
  destruct (outcome env now (collectWalletBalances ownerType grant))
    as [balances | e]; [now exists balances |].
  destruct H as (ev & Hin & Hfail). rewrite (Hnone ev Hin) in Hfail.
  discriminate.
Qed.

(** C8, as the code has it.  The [feesLimit] of a record returned by
    [collectWalletBalances] is the sentinel for a managed owner; for a
    custodial owner it is [parseFloat] of the amount of the first spend
    limit of the fee allowance in the denom of the grant, or [0] when
    there is none.  It is always a number; the sentinel and [0] are not
    negative, and the parsed amount is negative only when the allowance
    writes it with a minus sign. *)
Theorem C8_feesLimit_is_the_sentinel_or_the_parsed_allowance :
  forall (env : Env) (now : nat) ownerType grant,
    let A := DeploymentAllowance.granter grant in
    let B := DeploymentAllowance.grantee grant in
    let d :=
      Coin.denom
        (Authorization.spend_limit
           (DeploymentAllowance.authorization grant)) in
    match outcome env now (collectWalletBalances ownerType grant) with
    | Ok balances =>
        match ownerType with
        | MANAGED =>
            Balances.isManaged balances = true /\
            Balances.feesLimit balances = UNLIMITED_FEES_MANAGED_BALANCE
        | CUSTODIAL =>
            Balances.isManaged balances = false /\
            exists fa,
              env _ (GetFeeAllowanceForGranterAndGrantee A B) now = Ok fa /\
              Balances.feesLimit balances =
              match
                find (fun limit => String.eqb (Coin.denom limit) d)
                     (Allowance.spend_limit (FeeAllowance.allowance fa))
              with
              | Some limit => parseFloat (Coin.amount limit)
              | None => S754_zero false
              end
        end
    | Err _ => True
    end /\
    isNegative UNLIMITED_FEES_MANAGED_BALANCE = false /\
    isNaN UNLIMITED_FEES_MANAGED_BALANCE = false /\
    isNegative (S754_zero false) = false /\
    (forall amount,
        isNegative (parseFloat amount) = true ->
        exists r, trimStart amount = String "-" r).
Proof.
  intros env now ownerType grant A B d.
  split; [| repeat split; exact parseFloat_negative].
  unfold outcome. destruct ownerType.
  - rewrite exec_collectWalletBalances_custodial. cbv zeta. fold A B d.
    destruct (env _ (GetFeeAllowanceForGranterAndGrantee A B) now)
      as [fa | e] eqn:Hfa; [| exact I].
    simpl snd. destruct (env _ (GetBalance A d) (S now)) as [coin | e];
      [| exact I].
    split; [reflexivity |]. exists fa. split; reflexivity.
  - rewrite exec_collectWalletBalances_managed. cbv zeta. simpl snd.
    destruct (env _ _ now) as [coin | e]; [split; reflexivity | exact I].
Qed.

(** A fee allowance of ["-5"] makes [feesLimit] negative. *)
Lemma C8_counterexample :
  exists balances,
    outcome (sampleEnv [uakt "-5"] sampleBalances (fun _ => [])) 0
            (collectWalletBalances CUSTODIAL
               (mkGrant "wallet1" "owner1" "uakt" "500"))
    = Ok balances /\
    isNegative (Balances.feesLimit balances) = true.
Proof.
  eexists. split; vm_compute; reflexivity.
Qed.

Lemma C8_witness : exists r, trimStart "-5" = String "-" r.
Proof.
  destruct (C8_feesLimit_is_the_sentinel_or_the_parsed_allowance
              (sampleEnv [uakt "-5"] sampleBalances (fun _ => [])) 0
              CUSTODIAL (mkGrant "wallet1" "owner1" "uakt" "500"))
    as (_ & _ & _ & _ & Hneg).
  apply Hneg. vm_compute. reflexivity.
Defined.

(** The record returned holds, as [deploymentLimit], what [parseFloat]
    reads in the amount of the spend limit of the grant, and as
    [balance] what it reads in the amount the one balance fetch
    answered. *)
Lemma collectWalletBalances_parses (env : Env) (now : nat) ownerType grant
  balances :
  outcome env now (collectWalletBalances ownerType grant) = Ok balances ->
  Balances.deploymentLimit balances =
  parseFloat
    (Coin.amount
       (Authorization.spend_limit (DeploymentAllowance.authorization grant)))
  /\
  exists coin,
    balanceAnswers (trace env now (collectWalletBalances ownerType grant))
    = [Ok coin] /\
    Balances.balance balances = parseFloat (Coin.amount coin).
Proof.
  unfold outcome, trace. destruct ownerType.
  - rewrite exec_collectWalletBalances_custodial. cbv zeta.
    destruct (env _ (GetFeeAllowanceForGranterAndGrantee _ _) now)
      as [fa | e]; [| discriminate].
    simpl fst. simpl snd.
    destruct (env _ (GetBalance _ _) (S now)) as [coin | e];
      [| discriminate].
    intros H. injection H as <-. split; [reflexivity |].
    exists coin. split; reflexivity.
  - rewrite exec_collectWalletBalances_managed. cbv zeta.
    simpl fst. simpl snd.
    destruct (env _ _ now) as [coin | e]; [| discriminate].
    intros H. injection H as <-. split; [reflexivity |].
    exists coin. split; reflexivity.
Qed.

(** C9.  [collectWalletBalances] parses the upstream strings: in every
    record it returns, [deploymentLimit] is [parseFloat] of the amount
    of the spend limit of the grant, and [balance] is [parseFloat] of
    the amount that the balance fetch answered, whatever the two
    strings are.  ["123.45"] parses to the number [123.45] and ["0"] to
    [0]; so a grant whose spend limit is ["123.45"] yields that
    [deploymentLimit], and a balance of ["0"] yields [balance = 0] in
    the record returned; the record is returned whenever no call
    fails, a balance of zero included. *)
Theorem C9_amounts_are_parsed_as_numbers :
  (forall (env : Env) (now : nat) ownerType grant balances,
      outcome env now (collectWalletBalances ownerType grant) = Ok balances ->
      Balances.deploymentLimit balances =
      parseFloat
        (Coin.amount
           (Authorization.spend_limit
              (DeploymentAllowance.authorization grant))) /\
      exists coin,
        balanceAnswers
          (trace env now (collectWalletBalances ownerType grant))
        = [Ok coin] /\
        Balances.balance balances = parseFloat (Coin.amount coin)) /\
  parseFloat "123.45" = decimalLiteral 12345 (-2) /\
  decimalLiteral 12345 (-2) = S754_finite false 8687021468732621 (-46) /\
  parseFloat "0" = integerLiteral 0 /\
  integerLiteral 0 = S754_zero false /\
  (forall (env : Env) (now : nat) ownerType grant balances,
    outcome env now (collectWalletBalances ownerType grant) = Ok balances ->
    (Coin.amount
       (Authorization.spend_limit (DeploymentAllowance.authorization grant))
     = "123.45" ->
     Balances.deploymentLimit balances = decimalLiteral 12345 (-2)) /\
    (forall coin,
        In (Ok coin)
           (balanceAnswers
              (trace env now (collectWalletBalances ownerType grant))) ->
        Coin.amount coin = "0" ->
        Balances.balance balances = integerLiteral 0)) /\
  (forall (env : Env) (now : nat) ownerType grant,
      (forall ev,
          In ev (trace env now (collectWalletBalances ownerType grant)) ->
          failureOf ev = None) ->
      exists balances,
        outcome env now (collectWalletBalances ownerType grant)
        = Ok balances).
Proof.
  split; [exact collectWalletBalances_parses |].
  do 4 (split; [vm_compute; reflexivity |]).
  split; [| exact collectWalletBalances_returns].
  intros env now ownerType grant balances H.
  destruct (collectWalletBalances_parses env now ownerType grant balances H)
    as (Hlimit & coin & Hanswers & Hbalance).
  split.
  - intros Hamount. rewrite Hlimit, Hamount. vm_compute. reflexivity.
  - intros coin' Hin Hzero. rewrite Hanswers in Hin.
    destruct Hin as [Hc | []]. injection Hc as ->.
    rewrite Hbalance, Hzero. vm_compute. reflexivity.
Qed.

Lemma C9_witness :
  Balances.deploymentLimit
    {| Balances.denom := "uakt";
       Balances.feesLimit := UNLIMITED_FEES_MANAGED_BALANCE;
       Balances.deploymentLimit := parseFloat "123.45";
       Balances.balance := parseFloat "0";
       Balances.isManaged := true |}
  = decimalLiteral 12345 (-2) /\
  Balances.balance
    {| Balances.denom := "uakt";
       Balances.feesLimit := UNLIMITED_FEES_MANAGED_BALANCE;
       Balances.deploymentLimit := parseFloat "123.45";
       Balances.balance := parseFloat "0";
       Balances.isManaged := true |}
  = integerLiteral 0 /\
  exists coin,
    balanceAnswers
      (trace (sampleEnv [] (fun _ => Ok "0") (fun _ => [])) 0
         (collectWalletBalances MANAGED
            (mkGrant "wallet1" "owner1" "uakt" "123.45")))
    = [Ok coin] /\
    parseFloat "0" = parseFloat (Coin.amount coin).
Proof.
  destruct C9_amounts_are_parsed_as_numbers
    as (Hparses & _ & _ & _ & _ & H & _).
  destruct (H (sampleEnv [] (fun _ => Ok "0") (fun _ => [])) 0 MANAGED
              (mkGrant "wallet1" "owner1" "uakt" "123.45") _ eq_refl)
    as [Hlimit Hbalance].
  split; [| split].
  - exact (Hlimit eq_refl).
  - apply (Hbalance {| Coin.denom := "uakt"; Coin.amount := "0" |}).
    + left. reflexivity.
    + reflexivity.
  - exact (proj2 (Hparses (sampleEnv [] (fun _ => Ok "0") (fun _ => [])) 0
                    MANAGED (mkGrant "wallet1" "owner1" "uakt" "123.45")
                    _ eq_refl)).
Defined.

(** C3, as the code has it.  [parseFloat] does not throw: an amount
    that is not numeric is not refused.  [collectWalletBalances] fails
    only with the error of a call that failed; otherwise it returns the
    record, with [parseFloat] of the spend limit as [deploymentLimit]
    and [parseFloat] of the fetched amount as [balance].  What
    [parseFloat] gives is [NaN] exactly when the string, after its
    leading white space and one optional sign, starts neither with a
    digit, nor with a dot that a digit follows, nor with the word
    [Infinity]: so for ["abc"], [""], ["-"], ["."], [".x"] and
    ["Inf"], and in particular for every string whose first code unit
    after the white space is no digit, sign, dot or [I].  In every
    other case it is not [NaN]: ["12abc"] gives [12]. *)
Theorem C3_amounts_are_not_validated :
  (forall (env : Env) (now : nat) ownerType grant,
      match outcome env now (collectWalletBalances ownerType grant) with
      | Ok balances =>
          Balances.deploymentLimit balances =
          parseFloat
            (Coin.amount
               (Authorization.spend_limit
                  (DeploymentAllowance.authorization grant))) /\
          exists coin,
            In (Ok coin)
               (balanceAnswers
                  (trace env now (collectWalletBalances ownerType grant))) /\
            Balances.balance balances = parseFloat (Coin.amount coin)
      | Err e =>
          exists ev,
            In ev (trace env now (collectWalletBalances ownerType grant)) /\
            failureOf ev = Some e
      end) /\
  (forall amount,
      isNaN (parseFloat amount) = negb (isNumericStart amount)) /\
  (forall amount,
      match trimStart amount with
      | EmptyString => True
      | String c _ => startsLiteral c = false
      end ->
      parseFloat amount = NaN) /\
  parseFloat "abc" = NaN /\
  parseFloat "" = NaN /\
  parseFloat "-" = NaN /\
  parseFloat "." = NaN /\
  parseFloat ".x" = NaN /\
  parseFloat "Inf" = NaN /\
  parseFloat "12abc" = integerLiteral 12.
Proof.
  split; [exact collectWalletBalances_result |].
  split; [exact parseFloat_isNaN |].
  split; [exact parseFloat_NaN |].
  repeat split; vm_compute; reflexivity.
Qed.

Lemma C3_witness : parseFloat " n/a" = NaN.
Proof.
  destruct C3_amounts_are_not_validated as (_ & _ & Hnan & _).
  apply Hnan. reflexivity.
Defined.

(** A spend limit of ["abc"] and a balance of ["n/a"]: the record is
    returned, with [NaN] in both fields. *)
Lemma C3_counterexample :
  outcome (sampleEnv [uakt "5"] (fun _ => Ok "n/a") (fun _ => [])) 0
          (collectWalletBalances CUSTODIAL
             (mkGrant "wallet1" "owner1" "uakt" "abc"))
  = Ok {| Balances.denom := "uakt";
          Balances.feesLimit := integerLiteral 5;
          Balances.deploymentLimit := NaN;
          Balances.balance := NaN;
          Balances.isManaged := false |}.
Proof.
  vm_compute. reflexivity.
Qed.

(** ** The boundary at work

    The balance of ["wallet2"] cannot be read: the error is reported,
    the processing of the grant resolves, and the five grants of the
    sample registry are all processed. *)

Lemma C1_witness :
  reported sampleError
    (trace (sampleEnv [uakt "5"] sampleBalances uaktFirst) 0
           (processGrant CUSTODIAL
              (mkGrant "wallet2" "uakt-wallet" "uakt" "250"))) /\
  count isCompletion
    (trace (sampleEnv [uakt "5"] sampleBalances uaktFirst) 0
           (topUpDeployments sampleRegistry)) = 5.
Proof.
  destruct (C1_grant_failures_do_not_stop_the_batch sampleRegistry
              (sampleEnv [uakt "5"] sampleBalances uaktFirst) 0)
    as (Hgrant & _ & Hrun).
  split.
  - destruct (Hgrant CUSTODIAL (mkGrant "wallet2" "uakt-wallet" "uakt" "250"))
      as (_ & _ & Hreported).
    apply (Hreported (EvCall (GetBalance "wallet2" "uakt") (Err sampleError))).
    + right. left. reflexivity.
    + reflexivity.
  - apply Nat2Z.inj. rewrite Hrun. vm_compute. reflexivity.
Defined.


(** A promise that is created and not awaited is not under the
    boundary: its rejection is not caught by the handler, it stays
    unhandled while the boundary resolves. *)
Remark unawaited_rejection_is_not_caught (env : Env) (now : nat) e :
  exec env now
       (execWithErrorHandler (fun _ => unawaited [raise e]))
  = ([EvUnhandledRejection e], Ok tt).
Proof. reflexivity. Qed.

(* ================================================================== *)
(** * Further properties of the service *)
(* ================================================================== *)

(** ** The boundary and [topUpForGrant] under an environment *)

(** X1.  [execWithErrorHandler] runs its callback and adds nothing to a
    callback that resolves; to one that rejects with [e] it adds three
    calls, [toEvent e], [captureEvent] of that event, and the error
    record with the stack of [e] and the id the sink returned; it
    resolves in both cases. *)
Theorem X1_execWithErrorHandler_adds_only_the_report :
  forall (env : Env) (now : nat) (cb : unit -> Async unit),
    exec env now (execWithErrorHandler cb) =
    match exec env now (cb tt) with
    | (tr, Ok _) => (tr, Ok tt)
    | (tr, Err e) =>
        let event := env _ (ToEvent e) (now + length tr) in
        let id := env _ (CaptureEvent event) (S (now + length tr)) in
        (tr ++ handlerTrace e event id, Ok tt)
    end.
Proof.
  intros env now cb. unfold execWithErrorHandler.
  change (catch (cb tt) ?h) with (tryCatch (cb tt) h).
  rewrite exec_tryCatch.
  destruct (exec env now (cb tt)) as [tr [[] | e]]; [reflexivity |].
  simpl. destruct (env unit _ _). reflexivity.
Qed.

(** X2.  [topUpForGrant] is [collectWalletBalances] followed by two
    records: [BALANCES_COLLECTED] with the owner, the grantee and the
    very record collected, and [RETRIEVING_DRAINING_DEPLOYMENTS] for
    the owner; when the collection fails it rejects with the same
    error and logs nothing. *)
Theorem X2_topUpForGrant_logs_the_record_it_collected :
  forall (env : Env) (now : nat) ownerType grant,
    let owner :=
      match ownerType with
      | CUSTODIAL => DeploymentAllowance.granter grant
      | MANAGED => DeploymentAllowance.grantee grant
      end in
    exec env now (topUpForGrant ownerType grant) =
    match exec env now (collectWalletBalances ownerType grant) with
    | (tr, Ok balances) =>
        (tr ++
         [EvCall (LoggerDebug
                    (BALANCES_COLLECTED owner
                       (DeploymentAllowance.grantee grant) balances)) tt;
          EvCall (LoggerDebug (RETRIEVING_DRAINING_DEPLOYMENTS owner)) tt],
         Ok tt)
    | (tr, Err e) => (tr, Err e)
    end.
Proof.
  intros env now ownerType grant owner. unfold topUpForGrant.
  change (bind ?m ?f) with (andThen m f) at 1.
  rewrite exec_andThen.
  destruct (exec env now (collectWalletBalances ownerType grant))
    as [tr [balances | e]]; [| reflexivity].
  subst owner. destruct ownerType; simpl;
    repeat match goal with
           | |- context [env unit ?c ?n] => destruct (env unit c n)
           end; reflexivity.
Qed.

Lemma Run_settleAll_outcome {B : Type} (ts : list (Async B)) :
  forall rej tr o,
    Run (settleAll ts rej) tr o ->
    exists rs,
      RunsOf ts rs /\ tr = concat (map fst rs) /\ Joined rej rs o.
Proof.
  unfold RunsOf, Joined.
  induction ts as [|t ts IH]; intros rej tr o H.
  - exists []. destruct rej as [e|]; simpl in H; destruct H as [-> ->];
      (split; [constructor | split; [reflexivity |]]); auto.
  - simpl in H. apply Run_andThen in H.
    destruct H as [(a & tr1 & tr2 & H1 & H2 & ->) | (e & H1 & _)];
      apply Run_settle in H1; destruct H1 as (o' & Ho' & H1);
      [| discriminate].
    injection Ho' as <-. destruct a as [v | e].
    + apply Run_andThen in H2.
      destruct H2 as [(vs & t1 & t2 & H3 & H4 & ->) | (e & H3 & ->)];
        apply IH in H3; destruct H3 as (rs & Hrs & -> & Hj).
      * simpl in H4. destruct H4 as [-> ->]. exists ((tr1, Ok v) :: rs).
        split; [constructor; auto |]. split; [simpl; now rewrite app_nil_r |].
        destruct Hj as [-> Hmap]. split; [reflexivity |].
        simpl. now rewrite Hmap.
      * exists ((tr1, Ok v) :: rs).
        split; [constructor; auto |]. split; [reflexivity |].
        destruct Hj as [-> | (r & Hin & Hr)]; [now left |].
        right. exists r. split; [now right | exact Hr].
    + apply IH in H2. destruct H2 as (rs & Hrs & -> & Hj).
      exists ((tr1, Err e) :: rs).
      split; [constructor; auto |]. split; [reflexivity |].
      destruct o as [vs | e'].
      * destruct Hj as [Hj _]. discriminate.
      * destruct Hj as [Hj | (r & Hin & Hr)].
        -- destruct rej as [e0|]; injection Hj as <-; [now left |].
           right. exists (tr1, Err e). split; [now left | reflexivity].
        -- right. exists r. split; [now right | exact Hr].
Qed.

Lemma noteRejection_cases {B : Type} (rej : option Error) (t : Async B) :
  (noteRejection rej t = rej)
  \/ (rej = None /\ exists e, t = Reject e /\ noteRejection rej t = Some e).
Proof.
  destruct rej as [e0|]; [now left |].
  destruct t; simpl; eauto.
Qed.

Lemma Joined_step {B : Type} (rej : option Error) (t : Async B)
  (r1 r2 : list (Trace * Outcome B)) (x : Trace * Outcome B) (blk : Trace) o :
  Run t (fst x) (snd x) ->
  Joined (noteRejection rej t) (r1 ++ x :: r2) o ->
  Joined rej (r1 ++ (blk ++ fst x, snd x) :: r2) o.
Proof.
  unfold Joined. intros Hx Hj.
  assert (Hmap : map snd (r1 ++ (blk ++ fst x, snd x) :: r2)
                 = map snd (r1 ++ x :: r2)).
  { now rewrite !map_app. }
  assert (Hin : forall r, In r (r1 ++ x :: r2) ->
                          exists r', In r' (r1 ++ (blk ++ fst x, snd x) :: r2)
                                     /\ snd r' = snd r).
  { intros r Hr. apply in_app_or in Hr. destruct Hr as [Hr | [<- | Hr]].
    - exists r. split; [apply in_or_app; now left | reflexivity].
    - exists (blk ++ fst x, snd x).
      split; [apply in_or_app; right; now left | reflexivity].
    - exists r. split; [apply in_or_app; right; now right | reflexivity]. }
  destruct (noteRejection_cases rej t) as [E | (-> & e & -> & E)];
    rewrite E in Hj.
  - destruct o as [vs | e].
    + now rewrite Hmap.
    + destruct Hj as [Hj | (r & Hr & Hs)]; [now left |].
      right. destruct (Hin r Hr) as (r' & Hr' & Hs').
      exists r'. split; [exact Hr' | congruence].
  - destruct o as [vs | e'].
    + destruct Hj as [Hj _]. discriminate.
    + right. destruct Hj as [Hj | (r & Hr & Hs)].
      * injection Hj as <-. simpl in Hx. destruct Hx as [_ Hx].
        exists (blk ++ fst x, snd x).
        split; [apply in_or_app; right; now left | exact Hx].
      * destruct (Hin r Hr) as (r' & Hr' & Hs').
        exists r'. split; [exact Hr' | congruence].
Qed.

Lemma Run_allSteps_outcome {B : Type} (sched : list nat) :
  forall (ts : list (Async B)) rej tr o,
    Run (allSteps sched ts rej) tr o ->
    exists rs,
      RunsOf ts rs /\ Shuffle (map fst rs) tr /\ Joined rej rs o.
Proof.
  unfold RunsOf.
  induction sched as [|i sched IH]; intros ts rej tr o H.
  - simpl in H. apply Run_settleAll_outcome in H.
    destruct H as (rs & Hrs & -> & Hj). exists rs.
    split; [exact Hrs |]. split; [apply Shuffle_concat | exact Hj].
  - simpl in H. destruct (nth_error ts i) as [t|] eqn:E; [| now apply IH].
    destruct t as [a | e | R c k | t' k]; try (now apply IH).
    + destruct H as (r & tr' & -> & H). apply IH in H.
      destruct H as (rs & Hrs & Hsh & Hj).
      apply nth_error_cut in E. destruct E as (l1 & l2 & -> & <-).
      rewrite update_app in Hrs. apply Forall2_app_inv_l in Hrs.
      destruct Hrs as (r1 & r2 & Hr1 & Hr2 & ->).
      inversion Hr2 as [|? x ? r2' Hx Hr2']; subst.
      exists (r1 ++ ([EvCall c r] ++ fst x, snd x) :: r2').
      split; [| split].
      * apply Forall2_app; [exact Hr1 |]. constructor; [| exact Hr2'].
        simpl. eauto.
      * rewrite map_app in *. simpl in *.
        apply (ShuffleTake (map fst r1) [EvCall c r] (fst x) (map fst r2') tr').
        exact Hsh.
      * exact (Joined_step rej (k r) r1 r2' x [EvCall c r] o Hx Hj).
    + destruct H as (tr1 & o1 & tr2 & H1 & H & ->). apply IH in H.
      destruct H as (rs & Hrs & Hsh & Hj).
      apply nth_error_cut in E. destruct E as (l1 & l2 & -> & <-).
      rewrite update_app in Hrs. apply Forall2_app_inv_l in Hrs.
      destruct Hrs as (r1 & r2 & Hr1 & Hr2 & ->).
      inversion Hr2 as [|? x ? r2' Hx Hr2']; subst.
      exists (r1 ++ ((tr1 ++ unhandled o1) ++ fst x, snd x) :: r2').
      split; [| split].
      * apply Forall2_app; [exact Hr1 |]. constructor; [| exact Hr2'].
        simpl. exists tr1, o1, (fst x). rewrite <- app_assoc. auto.
      * rewrite map_app in *. simpl in *. rewrite app_assoc.
        apply (ShuffleTake (map fst r1) (tr1 ++ unhandled o1) (fst x)
                           (map fst r2') tr2).
        exact Hsh.
      * exact (Joined_step rej k r1 r2' x (tr1 ++ unhandled o1) o Hx Hj).
Qed.

Lemma firstRejected_some {B : Type} (ts : list (Async B)) :
  forall rej e,
    fold_left noteRejection ts rej = Some e ->
    rej = Some e \/ In (Reject e) ts.
Proof.
  induction ts as [|t ts IH]; intros rej e H; simpl in H; [now left |].
  apply IH in H. destruct H as [H | H]; [| right; now right].
  destruct (noteRejection_cases rej t) as [E | (-> & e' & -> & E)];
    rewrite E in H.
  - now left.
  - injection H as <-. right. now left.
Qed.

Lemma RunsOf_In {B : Type} (ts : list (Async B)) rs t :
  RunsOf ts rs -> In t ts -> exists r, In r rs /\ Run t (fst r) (snd r).
Proof.
  intros H. induction H as [|t0 r ts rs Hr _ IH]; intros Hin; [destruct Hin |].
  destruct Hin as [<- | Hin].
  - exists r. split; [now left | exact Hr].
  - destruct (IH Hin) as (r' & Hr' & Hrun). exists r'. split; [now right | exact Hrun].
Qed.

Lemma Run_Promise_all_outcome {B : Type} (ts : list (Async B)) tr o :
  Run (Promise_all ts) tr o ->
  exists sched tr' rs,
    tr = EvCall (Interleaving (length ts)) sched :: tr' /\
    RunsOf ts rs /\ Shuffle (map fst rs) tr' /\
    match o with
    | Ok vs => map snd rs = map Ok vs
    | Err e => exists r, In r rs /\ snd r = Err e
    end.
Proof.
  unfold Promise_all. simpl. intros (sched & tr' & -> & H).
  apply Run_allSteps_outcome in H. destruct H as (rs & Hrs & Hsh & Hj).
  exists sched, tr', rs. split; [reflexivity |]. split; [exact Hrs |].
  split; [exact Hsh |]. unfold Joined in Hj. destruct o as [vs | e].
  - now destruct Hj.
  - destruct Hj as [Hj | Hj]; [| exact Hj].
    apply firstRejected_some in Hj. destruct Hj as [Hj | Hj]; [discriminate |].
    destruct (RunsOf_In ts rs _ Hrs Hj) as (r & Hr & Hrun).
    exists r. split; [exact Hr |]. simpl in Hrun. now destruct Hrun.
Qed.

Lemma count_In (p : Event -> bool) (tr : Trace) ev :
  In ev tr -> p ev = true -> 1 <= count p tr.
Proof.
  unfold count. intros Hin Hp.
  assert (H : In ev (filter p tr)) by (apply filter_In; auto).
  destruct (filter p tr); [destruct H | simpl; lia].
Qed.

Lemma count_Permutation (p : Event -> bool) (a b : Trace) :
  Permutation a b -> count p a = count p b.
Proof.
  intros H. apply Nat2Z.inj. rewrite !count_indicator.
  now apply weight_Permutation.
Qed.

Lemma count_implies (p q : Event -> bool) (tr : Trace) :
  (forall ev, p ev = true -> q ev = true) ->
  count q tr = 0 -> count p tr = 0.
Proof.
  unfold count. intros Hpq. induction tr as [|ev tr IH]; [reflexivity |].
  simpl. destruct (q ev) eqn:Hq; [discriminate |].
  destruct (p ev) eqn:Hp; [| exact IH].
  apply Hpq in Hp. congruence.
Qed.

Lemma processGrant_no_fatal ownerType grant tr out :
  Run (processGrant ownerType grant) tr out ->
  weight (indicator isFatalFailure) tr = 0%Z.
Proof.
  intros H. grant_runs H; reflexivity.
Qed.

Lemma processPage_no_fatal ownerType grants tr o :
  Run (processPage ownerType grants) tr o ->
  count isFatalFailure tr = 0 /\ o = Ok tt.
Proof.
  intros H.
  destruct (processPage_runs (indicator isFatalFailure) 0 ownerType
              (fun _ _ => eq_refl)
              (processGrant_no_fatal ownerType) grants tr o H)
    as [Hw Ho].
  split; [| exact Ho]. apply count_zero. lia.
Qed.

Lemma paginatePages_ends ownerType options :
  forall pages page tr o,
    Run (paginatePages options page pages (processPage ownerType)) tr o ->
    PassEnds tr o.
Proof.
  unfold PassEnds.
  induction pages as [|grants rest IH]; intros page tr o H; cbn in H.
  - destruct H as [-> ->]. reflexivity.
  - destruct H as (r & tr' & -> & H). destruct r as [[] | e]; cbn in H.
    + apply Run_andThen in H.
      destruct H as [([] & tr1 & tr2 & H1 & H2 & ->) | (e & H1 & _)];
        apply processPage_no_fatal in H1; destruct H1 as [Hc Ho];
        [| discriminate].
      apply IH in H2.
      change (EvCall ?c ?r :: ?l) with ([EvCall c r] ++ l).
      rewrite !count_app, Hc.
      destruct o as [[] | e].
      * rewrite H2. reflexivity.
      * destruct H2 as [H2 (ev & Hin & Hf & He)]. rewrite H2.
        split; [reflexivity |]. exists ev.
        split; [| now split].
        apply in_or_app; right; apply in_or_app; now right.
    + destruct H as [-> ->]. split; [reflexivity |].
      exists (EvCall (FetchDeploymentGrantsPage options page) (Err e)).
      split; [now left | split; reflexivity].
Qed.

Lemma reconcileWallet_ends registry wallet side ownerType tr o :
  Run (reconcileWallet registry wallet side ownerType) tr o ->
  PassEnds tr o.
Proof.
  unfold reconcileWallet, paginateDeploymentGrants. cbn.
  intros (r & tr' & -> & H). destruct r as [address | e]; cbn in H.
  - apply paginatePages_ends in H. unfold PassEnds in *.
    change (EvCall ?c ?r :: ?l) with ([EvCall c r] ++ l).
    rewrite count_app.
    destruct o as [[] | e].
    + rewrite H. reflexivity.
    + destruct H as [H (ev & Hin & Hf & He)]. rewrite H.
      split; [reflexivity |]. exists ev.
      split; [apply in_or_app; now right | now split].
  - destruct H as [-> ->]. split; [reflexivity |].
    exists (EvCall (GetFirstAddress wallet) (Err e)).
    split; [now left | split; reflexivity].
Qed.

Lemma RunsOf_Forall {B : Type} (P : Trace -> Outcome B -> Prop)
  (ts : list (Async B)) rs :
  Forall (fun t => forall tr o, Run t tr o -> P tr o) ts ->
  RunsOf ts rs -> Forall (fun r => P (fst r) (snd r)) rs.
Proof.
  intros Hts Hrs. induction Hrs as [|t r ts rs Hr _ IH]; [constructor |].
  inversion Hts as [|? ? Ht Hts']; subst. constructor; auto.
Qed.

Lemma count_concat_zero (p : Event -> bool) (ls : list Trace) :
  Forall (fun l => count p l = 0) ls -> count p (concat ls) = 0.
Proof.
  induction 1 as [|l ls Hl _ IH]; [reflexivity |].
  simpl. now rewrite count_app, Hl, IH.
Qed.

(** The custodial passes joined: resolved, nothing failed; rejected,
    with the error of an address or a page that failed. *)
Lemma custodial_passes_end registry tr o :
  Run (Promise_all (topUpAllCustodialDeployments registry)) tr o ->
  match o with
  | Ok _ => count isFatalFailure tr = 0
  | Err e => 1 <= count isFatalFailure tr /\ Aborted tr e
  end.
Proof.
  intros H. apply Run_Promise_all_outcome in H.
  destruct H as (sched & tr' & rs & -> & Hrs & Hsh & Ho).
  assert (Hends : Forall (fun r => PassEnds (fst r) (snd r)) rs).
  { apply (RunsOf_Forall PassEnds _ _) with (2 := Hrs).
    apply Forall_forall. intros t Ht. apply in_map_iff in Ht.
    destruct Ht as (wallet & <- & _). intros tr0 o0.
    apply (reconcileWallet_ends registry wallet granteeSide CUSTODIAL). }
  pose proof (Shuffle_Permutation _ _ Hsh) as Hperm.
  change (EvCall ?c ?r :: ?l) with ([EvCall c r] ++ l).
  rewrite count_app. change (count isFatalFailure [_]) with 0. simpl plus.
  destruct o as [vs | e].
  - rewrite (count_Permutation _ _ _ Hperm). apply count_concat_zero.
    apply Forall_map.
    assert (Hall : Forall (fun r => isOk (snd r) = true) rs).
    { clear - Ho. revert vs Ho.
      induction rs as [|r rs IH]; intros vs Ho; [constructor |].
      destruct vs as [|v vs]; [discriminate |]. simpl in Ho.
      injection Ho as Hr Ho. constructor; [now rewrite Hr | eauto]. }
    clear - Hends Hall. induction Hends as [|r rs Hr _ IH]; [constructor |].
    inversion Hall as [|? ? Hok Hall']; subst.
    constructor; [| now apply IH].
    unfold PassEnds in Hr. destruct (snd r); [exact Hr | discriminate].
  - destruct Ho as (r & Hin & Hr).
    assert (Hab : Aborted tr' e).
    { rewrite Forall_forall in Hends. specialize (Hends r Hin).
      unfold PassEnds in Hends. rewrite Hr in Hends.
      destruct Hends as [_ (ev & Hev & Hf & He)].
      exists ev. split; [| now split].
      apply (Permutation_in _ (Permutation_sym Hperm)).
      apply in_concat. exists (fst r). split; [now apply in_map | exact Hev]. }
    split.
    + destruct Hab as (ev & Hev & Hf & _). exact (count_In _ _ ev Hev Hf).
    + destruct Hab as (ev & Hev & Hf & He). exists ev.
      split; [apply in_or_app; now right | now split].
Qed.

Lemma Run_topUpDeployments_outcome registry tr o :
  Run (topUpDeployments registry) tr o ->
  exists tr1 o1 tr2,
    tr = tr1 ++ tr2 /\
    Run (Promise_all (topUpAllCustodialDeployments registry)) tr1 o1 /\
    match o1 with
    | Ok _ =>
        Run (reconcileWallet registry managedMasterWalletService
                             granterSide MANAGED) tr2 o
    | Err e => o = Err e /\ tr2 = []
    end.
Proof.
  rewrite topUpDeployments_passes. intros H. apply Run_andThen in H.
  destruct H as [(vs & tr1 & tr2 & H1 & H2 & ->) | (e & H1 & ->)].
  - exists tr1, (Ok vs), tr2. auto.
  - exists tr, (Err e), []. rewrite app_nil_r. auto.
Qed.

Lemma topUpDeployments_ends registry tr o :
  Run (topUpDeployments registry) tr o ->
  match o with
  | Ok _ => count isFatalFailure tr = 0
  | Err e => 1 <= count isFatalFailure tr /\ Aborted tr e
  end.
Proof.
  intros H. apply Run_topUpDeployments_outcome in H.
  destruct H as (tr1 & o1 & tr2 & -> & H1 & H2).
  apply custodial_passes_end in H1. rewrite count_app.
  destruct o1 as [vs | e1].
  - apply reconcileWallet_ends in H2. unfold PassEnds in H2. rewrite H1.
    destruct o as [[] | e].
    + now rewrite H2.
    + destruct H2 as [H2 (ev & Hin & Hf & He)]. rewrite H2.
      split; [simpl; lia |]. exists ev.
      split; [apply in_or_app; now right | now split].
  - destruct H2 as [-> ->]. rewrite app_nil_r.
    destruct H1 as [H1 Hab]. split; [simpl; lia | exact Hab].
Qed.

(** X3.  A run of [topUpDeployments] resolves exactly when no wallet
    fails to give its address and no page fails to be fetched: a run
    that resolves holds no such failure, a run that rejects holds one
    and rejects with the error of one.  The failures of the fee
    allowance and balance lookups do not count. *)
Theorem X3_run_resolves_unless_an_address_or_a_page_fails :
  forall registry (env : Env) (now : nat),
    match outcome env now (topUpDeployments registry) with
    | Ok _ =>
        count isFatalFailure (trace env now (topUpDeployments registry)) = 0
    | Err e =>
        1 <= count isFatalFailure (trace env now (topUpDeployments registry))
        /\ Aborted (trace env now (topUpDeployments registry)) e
    end.
Proof.
  intros registry env now.
  exact (topUpDeployments_ends registry _ _ (exec_Run _ env now)).
Qed.

Lemma processGrant_no_managed_address ownerType grant tr out :
  Run (processGrant ownerType grant) tr out ->
  weight (indicator isManagedAddress) tr = 0%Z.
Proof.
  intros H. grant_runs H; reflexivity.
Qed.

Lemma managed_pass_resolves_its_address_once registry tr o :
  Run (reconcileWallet registry managedMasterWalletService
                       granterSide MANAGED) tr o ->
  count isManagedAddress tr = 1 /\ count isCustodialSide tr = 0.
Proof.
  intros H. split.
  - unfold reconcileWallet, paginateDeploymentGrants in H. cbn in H.
    destruct H as (r & tr' & -> & H).
    change (EvCall ?c ?r :: ?l) with ([EvCall c r] ++ l).
    rewrite count_app. change (count isManagedAddress [_]) with 1.
    destruct r as [address | e]; cbn in H.
    + rewrite (count_zero isManagedAddress tr'); [reflexivity |].
      eapply (paginatePages_weight registry (indicator isManagedAddress) 0
                MANAGED granterSide); try eassumption; try reflexivity.
      * intros grant tr0 o0. apply processGrant_no_managed_address.
      * intros options page r _. destruct r; reflexivity.
    + destruct H as [-> _]. reflexivity.
  - apply count_zero.
    apply (reconcileWallet_weight registry (indicator isCustodialSide) 0
             MANAGED granterSide) with (wallet := managedMasterWalletService)
                                        (o := o);
      try assumption; unfold indicator.
    + reflexivity.
    + intros grant tr0 o0. apply processGrant_managed_side.
    + intros options page r Hside. simpl. rewrite Hside.
      destruct r; reflexivity.
    + reflexivity.
Qed.

Lemma processGrant_fatal_is_custodial grant tr out :
  Run (processGrant CUSTODIAL grant) tr out ->
  weight (fun ev => (indicator isFatalFailure ev
                     - indicator isCustodialFatalFailure ev)%Z) tr = 0%Z.
Proof.
  intros H. grant_runs H; reflexivity.
Qed.

Lemma custodial_passes_sides registry tr o :
  Run (Promise_all (topUpAllCustodialDeployments registry)) tr o ->
  count isManagedSide tr = 0 /\
  count isCustodialFatalFailure tr = count isFatalFailure tr.
Proof.
  intros H. split.
  - apply count_zero.
    apply (custodial_passes_weight registry (indicator isManagedSide) 0)
      with (o := o); try assumption; unfold indicator.
    + reflexivity.
    + intros grant tr0 o0. apply processGrant_custodial_side.
    + intros options page r Hside. simpl. rewrite Hside.
      destruct r; reflexivity.
    + intros wallet r [<- | [<- | []]]; reflexivity.
  - assert (Hw : weight (fun ev => (indicator isFatalFailure ev
                                    - indicator isCustodialFatalFailure ev)%Z)
                        tr = 0%Z).
    { apply (custodial_passes_weight registry _ 0) with (o := o);
        try assumption.
      - reflexivity.
      - intros grant tr0 o0. apply processGrant_fatal_is_custodial.
      - intros options page r Hside.
        unfold indicator, isCustodialFatalFailure. simpl. rewrite Hside.
        destruct r; reflexivity.
      - intros wallet r [<- | [<- | []]]; destruct r; reflexivity. }
    rewrite weight_sub, <- !count_indicator in Hw. lia.
Qed.

(** X4.  The managed pass runs exactly when the custodial passes all
    resolved: when no custodial address or page failed, the managed
    wallet resolves its address, once; when one failed, the run holds
    no event of the managed pass. *)
Theorem X4_managed_pass_runs_iff_the_custodial_passes_resolved :
  forall registry (env : Env) (now : nat),
    if Nat.eqb
         (count isCustodialFatalFailure
                (trace env now (topUpDeployments registry))) 0
    then count isManagedAddress (trace env now (topUpDeployments registry))
         = 1
    else count isManagedSide (trace env now (topUpDeployments registry)) = 0.
Proof.
  intros registry env now.
  pose proof (exec_Run (topUpDeployments registry) env now) as H.
  apply Run_topUpDeployments_outcome in H.
  destruct H as (tr1 & o1 & tr2 & -> & H1 & H2).
  destruct (custodial_passes_sides registry tr1 o1 H1) as [Hm Hf].
  apply custodial_passes_end in H1. rewrite !count_app, Hm, Hf.
  destruct o1 as [vs | e1].
  - destruct (managed_pass_resolves_its_address_once registry tr2 _ H2)
      as [Ha Hc].
    rewrite H1.
    rewrite (count_implies isCustodialFatalFailure isCustodialSide tr2);
      [| | exact Hc].
    + simpl. rewrite (count_implies isManagedAddress isManagedSide tr1);
        [exact Ha | | exact Hm].
      intros [R c r | e]; [| discriminate]. destruct c; try discriminate.
      destruct wallet; try discriminate. reflexivity.
    + intros ev Hev. unfold isCustodialFatalFailure in Hev.
      now apply andb_true_iff in Hev.
  - destruct H2 as [_ ->]. destruct H1 as [H1 _].
    unfold count at 2 4 5. simpl. rewrite Nat.add_0_r.
    destruct (Nat.eqb_spec (count isFatalFailure tr1) 0); [lia | reflexivity].
Qed.

Lemma topUpDeployments_weight_by_pass registry (w : Event -> Z)
  (wgC wgM : Z) :
  (forall k s, w (EvCall (Interleaving k) s) = 0%Z) ->
  (forall grant tr o,
      Run (processGrant CUSTODIAL grant) tr o -> weight w tr = wgC) ->
  (forall grant tr o,
      Run (processGrant MANAGED grant) tr o -> weight w tr = wgM) ->
  (forall options page r,
      w (EvCall (FetchDeploymentGrantsPage options page) r) =
      match r with
      | Ok _ =>
          (- (match PaginationOptions.side options with
              | granteeSide => wgC
              | granterSide => wgM
              end)
           * Z.of_nat (length (nth page (registry options) [])))%Z
      | Err _ => 0%Z
      end) ->
  (forall wallet r, w (EvCall (GetFirstAddress wallet) r) = 0%Z) ->
  forall tr o,
    Run (topUpDeployments registry) tr o -> weight w tr = 0%Z.
Proof.
  intros Hs HgC HgM Hf Ha tr o H. apply Run_topUpDeployments in H.
  destruct H as (tr1 & o1 & tr2 & -> & H1 & H2).
  rewrite weight_app.
  rewrite (custodial_passes_weight registry w wgC Hs HgC) with (o := o1);
    [| | intros; apply Ha | exact H1].
  - destruct H2 as [[_ H2] | [_ ->]]; [| reflexivity].
    rewrite (reconcileWallet_weight registry w wgM MANAGED granterSide
               Hs HgM) with (wallet := managedMasterWalletService) (o := o);
      [reflexivity | | apply Ha | exact H2].
    intros options page r Hside. rewrite Hf, Hside. reflexivity.
  - intros options page r Hside. rewrite Hf, Hside. reflexivity.
Qed.

Lemma topUpDeployments_counts_agree registry (p q : Event -> bool) :
  (forall k s, p (EvCall (Interleaving k) s) = false) ->
  (forall k s, q (EvCall (Interleaving k) s) = false) ->
  (forall options page r,
      p (EvCall (FetchDeploymentGrantsPage options page) r) = false) ->
  (forall options page r,
      q (EvCall (FetchDeploymentGrantsPage options page) r) = false) ->
  (forall wallet r, p (EvCall (GetFirstAddress wallet) r) = false) ->
  (forall wallet r, q (EvCall (GetFirstAddress wallet) r) = false) ->
  (forall ownerType grant tr o,
      Run (processGrant ownerType grant) tr o ->
      weight (indicator p) tr = weight (indicator q) tr) ->
  forall tr o, Run (topUpDeployments registry) tr o -> count p tr = count q tr.
Proof.
  intros Hsp Hsq Hfp Hfq Hap Haq Hg tr o H.
  assert (Hw : weight (fun ev => (indicator p ev - indicator q ev)%Z) tr
               = 0%Z).
  { apply (topUpDeployments_weight registry _ 0) with (o := o);
      try assumption.
    - intros k s. unfold indicator. now rewrite Hsp, Hsq.
    - intros ownerType grant tr0 o0 H0.
      rewrite weight_sub, (Hg _ _ _ _ H0). lia.
    - intros options page r. unfold indicator. rewrite Hfp, Hfq.
      destruct r; reflexivity.
    - intros wallet r. unfold indicator. now rewrite Hap, Haq. }
  rewrite weight_sub, <- !count_indicator in Hw. lia.
Qed.

(** X5.  Over a whole run the error sink is called once per fee
    allowance or balance lookup that failed, and so are [toEvent] and
    the [TOP_UP_FAILED] record: none when no lookup fails. *)
Theorem X5_error_sink_is_called_once_per_failed_lookup :
  forall registry (env : Env) (now : nat),
    let tr := trace env now (topUpDeployments registry) in
    count isToEvent tr = count isLookupFailure tr /\
    count isCaptureEvent tr = count isLookupFailure tr /\
    count isTopUpFailedLog tr = count isLookupFailure tr.
Proof.
  intros registry env now tr.
  pose proof (exec_Run (topUpDeployments registry) env now) as H.
  repeat split;
    apply (topUpDeployments_counts_agree registry _ _) with (8 := H);
    try reflexivity;
    try (intros ? ? []; reflexivity);
    intros ownerType grant tr0 o0 H0; grant_runs H0; reflexivity.
Qed.

(** X6.  Over a whole run there is one fee allowance lookup per grant
    of the custodial pages fetched and none for the managed ones, and
    one balance fetch per grant fetched, but for the grants whose fee
    allowance lookup failed. *)
Theorem X6_upstream_lookups_per_grant :
  forall registry (env : Env) (now : nat),
    let tr := trace env now (topUpDeployments registry) in
    Z.of_nat (count isFeeAllowanceLookup tr)
    = weight (fetchedCustodial registry) tr /\
    Z.of_nat (count isBalanceFetch tr + count isFeeLookupFailure tr)
    = weight (fetched registry) tr.
Proof.
  intros registry env now tr.
  pose proof (exec_Run (topUpDeployments registry) env now) as H.
  split.
  - assert (Hw : weight (fun ev => (fetchedCustodial registry ev
                                    - indicator isFeeAllowanceLookup ev)%Z)
                        tr = 0%Z).
    { apply (topUpDeployments_weight_by_pass registry _ (-1) 0)
        with (o := outcome env now (topUpDeployments registry));
        try assumption; try reflexivity.
      - intros grant tr0 o0 H0. grant_runs H0; reflexivity.
      - intros grant tr0 o0 H0. grant_runs H0; reflexivity.
      - intros options page r. unfold fetchedCustodial, fetched, indicator.
        simpl. destruct (PaginationOptions.side options), r;
          try change (- -1)%Z with 1%Z; lia. }
    rewrite weight_sub, <- count_indicator in Hw. lia.
  - assert (Hw : weight (fun ev => (fetched registry ev
                                    - (indicator isBalanceFetch ev
                                       + indicator isFeeLookupFailure ev))%Z)
                        tr = 0%Z).
    { apply (topUpDeployments_weight registry _ (-1))
        with (o := outcome env now (topUpDeployments registry));
        try assumption; try reflexivity.
      - intros ownerType grant tr0 o0 H0. grant_runs H0; reflexivity.
      - intros options page r.
        unfold fetched, indicator, isBalanceFetch, isFeeLookupFailure,
          isFeeAllowanceLookup.
        cbn [andb]. destruct r; change (- -1)%Z with 1%Z; lia. }
    rewrite weight_sub in Hw.
    assert (Hadd : weight (fun ev => (indicator isBalanceFetch ev
                                      + indicator isFeeLookupFailure ev)%Z) tr
                   = (weight (indicator isBalanceFetch) tr
                      + weight (indicator isFeeLookupFailure) tr)%Z).
    { clear. induction tr as [|ev tr IH]; simpl; [reflexivity |].
      rewrite IH. lia. }
    rewrite Hadd, <- !count_indicator in Hw. lia.
Qed.

Lemma digit_cases (d : N) :
  (d < 10)%N ->
  d = 0%N \/ d = 1%N \/ d = 2%N \/ d = 3%N \/ d = 4%N \/ d = 5%N \/
  d = 6%N \/ d = 7%N \/ d = 8%N \/ d = 9%N.
Proof. lia. Qed.

Ltac digit_cases d H :=
  destruct (digit_cases d H)
    as [-> | [-> | [-> | [-> | [-> | [-> | [-> | [-> | [-> | ->]]]]]]]]].

Lemma digitValue_digitChar d : (d < 10)%N -> digitValue (digitChar d) = Some d.
Proof. intros H. digit_cases d H; reflexivity. Qed.

Lemma decimalDigits_digitString (ds : list N) (rest : string) :
  Forall (fun d => (d < 10)%N) ds ->
  endsNumber rest = true ->
  forall acc n,
    decimalDigits (digitString ds ++ rest)%string acc n
    = (fold_left (fun acc d => (10 * acc + d)%N) ds acc, n + length ds, rest).
Proof.
  intros Hds Hrest. induction Hds as [|d ds Hd _ IH]; intros acc n.
  - simpl. rewrite Nat.add_0_r. destruct rest as [|c r]; [reflexivity |].
    simpl in *. destruct (digitValue c); [discriminate | reflexivity].
  - simpl. rewrite (digitValue_digitChar d Hd), IH.
    now rewrite Nat.add_succ_r.
Qed.

Lemma roundMV_integer (v : N) :
  roundMV false v 0 = integerLiteral (Z.of_N v).
Proof.
  destruct v as [|p]; [reflexivity |].
  unfold roundMV, integerLiteral, binary_normalize.
  change (0 <=? 0)%Z with true. cbv iota.
  change (Z.to_pos (10 ^ 0)) with 1%positive.
  now rewrite Pos.mul_1_r.
Qed.

Lemma strUnsignedDecimalLiteral_integer (d : N) (ds : list N) (rest : string) :
  Forall (fun d => (d < 10)%N) (d :: ds) ->
  endsNumber rest = true ->
  strUnsignedDecimalLiteral (digitString (d :: ds) ++ rest)%string
  = Some (MVDecimal (digitsValue (d :: ds)) 0).
Proof.
  intros Hds Hrest. unfold strUnsignedDecimalLiteral.
  assert (Hinf : prefix "Infinity" (digitString (d :: ds) ++ rest)%string
                 = false).
  { inversion Hds as [|? ? Hd _]; subst. digit_cases d Hd; reflexivity. }
  rewrite Hinf, (decimalDigits_digitString _ _ Hds Hrest).
  fold (digitsValue (d :: ds)). generalize (digitsValue (d :: ds)) as v.
  intros v. simpl length.
  destruct rest as [|c r]; [reflexivity |].
  destruct c as [[] [] [] [] [] [] [] []]; try discriminate Hrest;
    reflexivity.
Qed.

Lemma parseFloat_integer_prefix (ds : list N) (rest : string) :
  ds <> [] ->
  Forall (fun d => (d < 10)%N) ds ->
  endsNumber rest = true ->
  parseFloat (digitString ds ++ rest)%string
  = integerLiteral (Z.of_N (digitsValue ds)).
Proof.
  intros Hne Hds Hrest. destruct ds as [|d ds]; [congruence |].
  rewrite <- roundMV_integer.
  assert (Hn : numericValue false (digitString (d :: ds) ++ rest)%string
               = roundMV false (digitsValue (d :: ds)) 0).
  { unfold numericValue.
    now rewrite (strUnsignedDecimalLiteral_integer d ds rest Hds Hrest). }
  rewrite <- Hn. unfold parseFloat.
  inversion Hds as [|? ? Hd _]; subst. digit_cases d Hd; reflexivity.
Qed.

(** X7.  The processing of a managed grant does not depend on the
    granter of the grant: with another granter the calls, their
    order, the record and the logs are the same. *)
Theorem X7_managed_processing_never_reads_the_granter :
  forall (env : Env) (now : nat) granter grant,
    exec env now (collectWalletBalances MANAGED (withGranter granter grant))
    = exec env now (collectWalletBalances MANAGED grant) /\
    exec env now (processGrant MANAGED (withGranter granter grant))
    = exec env now (processGrant MANAGED grant).
Proof.
  intros env now granter grant. split; reflexivity.
Qed.

(** X9.  [retrieveFeesLimit] takes the first spend limit of the fee
    allowance that is in the denom asked for: the entries in other
    denoms before it are skipped and the entries after it, in whatever
    denom, are not read. *)
Theorem X9_fee_limit_is_the_first_entry_in_the_denom :
  forall (env : Env) (now : nat) granter grantee denom pre limit post,
    Forall (fun l => String.eqb (Coin.denom l) denom = false) pre ->
    Coin.denom limit = denom ->
    env _ (GetFeeAllowanceForGranterAndGrantee granter grantee) now
    = Ok (mkFeeAllowance (pre ++ limit :: post)) ->
    outcome env now (retrieveFeesLimit granter grantee denom)
    = Ok (parseFloat (Coin.amount limit)).
Proof.
  intros env now granter grantee denom pre limit post Hpre Hd Hfa.
  unfold outcome, retrieveFeesLimit. simpl. rewrite Hfa. simpl.
  assert (Hfind : find (fun l => String.eqb (Coin.denom l) denom)
                       (pre ++ limit :: post) = Some limit).
  { clear Hfa. subst denom. induction Hpre as [|l pre Hl _ IH]; simpl.
    - now rewrite String.eqb_refl.
    - now rewrite Hl. }
  now rewrite Hfind.
Qed.

(** X8.  An amount that starts with decimal digits parses to the
    number nearest to the integer they write, whatever text follows
    the digits (but a digit, a dot or an exponent mark): a spend limit
    of ["500uakt"] is accepted as [500]. *)
Theorem X8_integer_amounts_are_read_up_to_trailing_text :
  forall (ds : list N) (rest : string),
    ds <> [] ->
    Forall (fun d => (d < 10)%N) ds ->
    endsNumber rest = true ->
    parseFloat (digitString ds ++ rest)%string
    = integerLiteral (Z.of_N (digitsValue ds)) /\
    forall (env : Env) (now : nat) ownerType grant balances,
      Coin.amount
        (Authorization.spend_limit (DeploymentAllowance.authorization grant))
      = (digitString ds ++ rest)%string ->
      outcome env now (collectWalletBalances ownerType grant) = Ok balances ->
      Balances.deploymentLimit balances
      = integerLiteral (Z.of_N (digitsValue ds)).
Proof.
  intros ds rest Hne Hds Hrest.
  pose proof (parseFloat_integer_prefix ds rest Hne Hds Hrest) as Hparse.
  split; [exact Hparse |].
  intros env now ownerType grant balances Hamount Hout.
  pose proof (collectWalletBalances_result env now ownerType grant) as H.
  rewrite Hout in H. destruct H as [H _].
  now rewrite H, Hamount.
Qed.

Lemma X8_witness : parseFloat "500uakt" = integerLiteral 500.
Proof.
  refine (proj1 (X8_integer_amounts_are_read_up_to_trailing_text
                   [5; 0; 0]%N "uakt" _ _ _)).
  - discriminate.
  - repeat constructor.
  - reflexivity.
Defined.

Lemma X9_witness :
  outcome
    (sampleEnv [{| Coin.denom := "uusdc"; Coin.amount := "7" |};
                uakt "5"; uakt "9"]
               sampleBalances (fun _ => [])) 0
    (retrieveFeesLimit "wallet1" "owner1" "uakt")
  = Ok (parseFloat "5").
Proof.
  refine (X9_fee_limit_is_the_first_entry_in_the_denom
            (sampleEnv [{| Coin.denom := "uusdc"; Coin.amount := "7" |};
                        uakt "5"; uakt "9"]
                       sampleBalances (fun _ => [])) 0
            "wallet1" "owner1" "uakt"
            [{| Coin.denom := "uusdc"; Coin.amount := "7" |}]
            (uakt "5") [uakt "9"] _ _ _).
  - repeat constructor.
  - reflexivity.
  - reflexivity.
Defined.

(** ** The wallets *)

Lemma processGrant_no_address wallet ownerType grant tr out :
  Run (processGrant ownerType grant) tr out ->
  weight (indicator (isAddressOf wallet)) tr = 0%Z.
Proof.
  intros H. grant_runs H; reflexivity.
Qed.

Lemma reconcileWallet_addresses registry wallet wallet' side ownerType tr o :
  Run (reconcileWallet registry wallet side ownerType) tr o ->
  count (isAddressOf wallet') tr
  = if MasterWalletService_eqb wallet' wallet then 1 else 0.
Proof.
  intros H. unfold reconcileWallet, paginateDeploymentGrants in H. cbn in H.
  destruct H as (r & tr' & -> & H).
  change (EvCall ?c ?r :: ?l) with ([EvCall c r] ++ l).
  rewrite count_app.
  assert (Hrest : count (isAddressOf wallet') tr' = 0).
  { destruct r as [address | e]; cbn in H.
    - apply count_zero.
      eapply (paginatePages_weight registry (indicator (isAddressOf wallet'))
                0 ownerType side); try eassumption; try reflexivity.
      + intros grant tr0 o0. apply processGrant_no_address.
      + intros options page r _. destruct r; reflexivity.
    - destruct H as [-> _]. reflexivity. }
  rewrite Hrest, Nat.add_0_r. unfold count. simpl.
  now destruct (MasterWalletService_eqb wallet' wallet).
Qed.

(** X10.  Every run asks each of the two custodial wallets for its
    address exactly once, and the managed wallet at most once. *)
Theorem X10_each_wallet_resolves_its_address_once :
  forall registry (env : Env) (now : nat),
    let tr := trace env now (topUpDeployments registry) in
    count (isAddressOf uaktMasterWalletService) tr = 1 /\
    count (isAddressOf usdtMasterWalletService) tr = 1 /\
    count (isAddressOf managedMasterWalletService) tr <= 1.
Proof.
  intros registry env now tr.
  pose proof (exec_Run (topUpDeployments registry) env now) as H.
  fold tr in H. clearbody tr.
  apply Run_topUpDeployments_outcome in H.
  destruct H as (tr1 & o1 & tr2 & -> & H1 & H2).
  apply Run_Promise_all in H1.
  destruct H1 as (sched & tr' & rs & -> & Hrs & Hsh & _).
  apply Shuffle_Permutation in Hsh.
  unfold RunsOf in Hrs.
  change (topUpAllCustodialDeployments registry)
    with [reconcileWallet registry uaktMasterWalletService
                          granteeSide CUSTODIAL;
          reconcileWallet registry usdtMasterWalletService
                          granteeSide CUSTODIAL] in Hrs.
  inversion Hrs as [|? r1 ? rs1 Hr1 Hrs1]; subst.
  inversion Hrs1 as [|? r2 ? rs2 Hr2 Hrs2]; subst.
  inversion Hrs2; subst. simpl in Hsh. rewrite app_nil_r in Hsh.
  assert (Hjoin : forall wallet,
             count (isAddressOf wallet)
                   (EvCall (Interleaving 2) sched :: tr')
             = count (isAddressOf wallet) (fst r1)
               + count (isAddressOf wallet) (fst r2)).
  { intros wallet.
    change (EvCall ?c ?r :: ?l) with ([EvCall c r] ++ l).
    rewrite count_app, (count_Permutation _ _ _ Hsh), count_app.
    reflexivity. }
  assert (Hmanaged : forall wallet,
             count (isAddressOf wallet) tr2
             = 0 \/
             count (isAddressOf wallet) tr2
             = if MasterWalletService_eqb wallet managedMasterWalletService
               then 1 else 0).
  { intros wallet. destruct o1 as [vs | e1].
    - right. exact (reconcileWallet_addresses _ _ wallet _ _ _ _ H2).
    - left. destruct H2 as [_ ->]. reflexivity. }
  simpl length. rewrite !count_app, !Hjoin.
  rewrite !(reconcileWallet_addresses _ _ _ _ _ _ _ Hr1),
    !(reconcileWallet_addresses _ _ _ _ _ _ _ Hr2).
  simpl.
  destruct (Hmanaged uaktMasterWalletService) as [-> | ->],
    (Hmanaged usdtMasterWalletService) as [-> | ->],
    (Hmanaged managedMasterWalletService) as [-> | ->];
    simpl; repeat split; lia.
Qed.
